(** * wbdis: the connection pool (pool.c) and the log writer (slog.c)

    A shallow embedding of [src/pool.c] and [src/slog.c] and the
    properties of the connectivity runtime stated over it.

    Conventions of the embedding.
    - A C string is the [string] of its characters before the
      terminating NUL; [strlen] is its length.
    - [size_t] is 64 bits wide and [int] 32 bits wide; their arithmetic
      is written in [Z] with the wrap-around spelled out ([size_t],
      [sint]).
    - A nullable pointer is an [option]; [None] is [NULL].
    - Calls that leave the program (write, fsync, libevent, the connect
      request) are recorded, in order, as a list of [event]s.
    - A function returns [None] where the C program has no defined
      behaviour (a read of an indeterminate buffer, a store or a read
      beyond an array, a dereference of [NULL]).
    - What the environment decides during one call (allocation, the
      clock, libevent's answers) is an [env] passed to it. *)

From Stdlib Require Import ZArith Ascii String.
From stdpp Require Import base option list strings gmap.

Local Open Scope Z_scope.

(** ** C integers *)

Definition SIZE_MAX : Z := 2 ^ 64 - 1.
Definition INT_MAX : Z := 2 ^ 31 - 1.
Definition INT_MIN : Z := - 2 ^ 31.

(** Result of an unsigned [size_t] computation. *)
Definition size_t (x : Z) : Z := x mod 2 ^ 64.

(** Result of a signed [int] computation (two's complement). *)
Definition sint (x : Z) : Z := (x + 2 ^ 31) mod 2 ^ 32 - 2 ^ 31.

(** ** C strings and the pieces of libc the sources call *)

Definition strlen (s : string) : Z := Z.of_nat (String.length s).

(** The first [n] characters of [s]. *)
Fixpoint take_s (n : nat) (s : string) : string :=
  match n, s with
  | S n', String c s' => String c (take_s n' s')
  | _, _ => ""
  end.

Definition digit (d : Z) : ascii := ascii_of_nat (48 + Z.to_nat d).

(** Decimal digits of a non-negative number, most significant first. *)
Fixpoint dec_digits (fuel : nat) (n : Z) (acc : string) : string :=
  match fuel with
  | O => acc
  | S fuel' =>
      let acc' := String (digit (n mod 10)) acc in
      if n / 10 =? 0 then acc' else dec_digits fuel' (n / 10) acc'
  end.

(** [printf]'s [%d] on an [int] (at most ten digits). *)
Definition fmt_d (z : Z) : string :=
  if z <? 0 then String "-" (dec_digits 10 (- z) "") else dec_digits 10 z "".

(** [printf] of a format whose only conversion is one [%s], or one
    [%d], given the text the argument converts to. *)
Fixpoint fmt1 (format arg : string) : string :=
  match format with
  | String "%" (String _ rest) => arg +:+ rest
  | String c rest => String c (fmt1 rest arg)
  | EmptyString => ""
  end.

(** [sizeof] of a [char] array initialised with a string literal. *)
Definition sizeof_str (s : string) : Z := strlen s + 1.

(** What [calloc] leaves in a buffer of [n] bytes: the empty string,
    unless there is no byte to hold its NUL. *)
Definition calloc_buf (n : Z) : option string :=
  if n =? 0 then None else Some "".

(** [snprintf(buf, size, ...)] where [text] is the whole formatted
    output, [cap] the real capacity of [buf] and [old] what [buf] held:
    at most [size - 1] characters and a NUL are stored, the length of
    the whole output is returned.  A buffer is [None] while its
    contents are indeterminate. *)
Definition snprintf (cap : Z) (old : option string) (size : Z) (text : string)
  : option (option string * Z) :=
  if size =? 0 then Some (old, strlen text)
  else
    let stored := take_s (Z.to_nat (size - 1)) text in
    if strlen stored + 1 <=? cap then Some (Some stored, strlen text) else None.

(** [struct tm], the fields the log line prints. *)
Record tm := Tm {
  tm_sec : Z; tm_min : Z; tm_hour : Z; tm_mday : Z; tm_mon : Z }.

Definition two_digits (n : Z) : string :=
  String (digit (n / 10 mod 10)) (String (digit (n mod 10)) "").

Definition month_abbr (m : Z) : string :=
  nth (Z.to_nat m)
    ["Jan"; "Feb"; "Mar"; "Apr"; "May"; "Jun";
     "Jul"; "Aug"; "Sep"; "Oct"; "Nov"; "Dec"] "???".

(** [strftime(buf, max, "%d %b %H:%M:%S", lt)] in the "C" locale, for
    fields in the ranges [localtime_r] fills them with. *)
Definition strftime (lt : tm) : string :=
  two_digits (tm_mday lt) +:+ " " +:+ month_abbr (tm_mon lt) +:+ " " +:+
  two_digits (tm_hour lt) +:+ ":" +:+ two_digits (tm_min lt) +:+ ":" +:+
  two_digits (tm_sec lt).

(** ** Constants of the libraries *)

(** hiredis. *)
Definition REDIS_ERR : Z := -1.
Definition REDIS_OK : Z := 0.
Definition REDIS_REPLY_STATUS : Z := 5.
Definition REDIS_REPLY_ERROR : Z := 6.

(** libevent. *)
Definition EV_PERSIST : Z := 16.

(** ** slog.h *)

(** Modelled from the spec: slog.h is not among the sources.  The
    levels are ordered by severity, a lower number being more severe.
    The numbers of the first five are the indexes slog.c uses into its
    table of level letters "EWNIDT"; WEBDIS_TRACE, which slog.c maps to
    the sixth letter by a test of its own, has a number above them. *)
Inductive log_level :=
  | WEBDIS_ERROR | WEBDIS_WARNING | WEBDIS_NOTICE
  | WEBDIS_INFO | WEBDIS_DEBUG | WEBDIS_TRACE.

Definition level_num (l : log_level) : Z :=
  match l with
  | WEBDIS_ERROR => 0 | WEBDIS_WARNING => 1 | WEBDIS_NOTICE => 2
  | WEBDIS_INFO => 3 | WEBDIS_DEBUG => 4 | WEBDIS_TRACE => 8
  end.

(** Modelled from the spec: slog.h is not among the sources.  The
    fsync policy is one of never (left to the system), periodic, and
    after every write. *)
Inductive log_fsync_mode := LOG_FSYNC_AUTO | LOG_FSYNC_MILLIS | LOG_FSYNC_ALL.

Global Instance log_fsync_mode_eq_dec : EqDecision log_fsync_mode.
Proof. solve_decision. Defined.

Global Instance log_level_eq_dec : EqDecision log_level.
Proof. solve_decision. Defined.

(** ** The program's data *)

Definition ptr := N.

(** conf.h, the fields pool.c and slog.c read; [fsync_mode] and
    [fsync_period_millis] are [log_fsync.mode] and
    [log_fsync.period_millis]. *)
Record conf := Conf {
  database : Z;
  logfile : option string;
  verbosity : Z;
  fsync_mode : log_fsync_mode;
  fsync_period_millis : Z }.

Record timeval := Timeval { tv_sec : Z; tv_usec : Z }.

(** server.h; [log_fsync_ev] is the pointer [log.fsync_ev]. *)
Record server := Server {
  base : ptr;
  cfg : conf;
  log_self : Z;
  log_fd : Z;
  log_fsync_tv : timeval;
  log_fsync_ev : option ptr;
  auth_logged : Z }.

(** The functions libevent is given as timer callbacks, each with the
    argument it is registered with. *)
Inductive callback :=
  | Pool_can_connect (pr : ptr)
  | Slog_fsync_tick.

(** Calls that leave the program. *)
Inductive event :=
  | Open (path : string)
  | Close (fd : Z)
  | Fprintf_stderr (text : string)
  | Write (fd : Z) (buf : string)
  | Fsync (fd : Z)
  | Event_set (ev : ptr) (fd : Z) (events : Z) (cb : callback)
  | Event_base_set (evbase : ptr) (ev : ptr)
  | Event_add (ev : ptr) (tv : timeval)
  | Event_new (evbase : ptr) (fd : Z) (events : Z) (cb : callback)
  | Connect_request (p : ptr) (db : Z) (attach : Z).

(** What the environment answers during one call: [heap] is what
    malloc and calloc return each time they are asked ([None] when they
    fail), [localtime] what [localtime_r] returns, [event_new_ret] and
    [event_add_ret] what libevent's [event_new] and [event_add] return. *)
Record env := Env {
  heap : option ptr;
  localtime : option tm;
  event_new_ret : option ptr;
  event_add_ret : Z }.

(** ** pool.h, worker.h and the memory of the process *)

(** Modelled from the spec: worker.h is not among the sources.  A
    worker owns one event loop, [w_base]; its server is the one of the
    process. *)
Record worker := Worker { w_base : ptr }.

(** Modelled from the spec: pool.h is not among the sources.  A pool
    has a fixed number of slots, [count], the array [ac] of optional
    connection handles, and its owner [p_w]; its [cfg] is the server's. *)
Record pool := Pool {
  p_w : worker;
  count : Z;
  ac : list (option ptr) }.

(** [struct pool_reconnect]; its [ev] is libevent's, and is known
    here by the address of the task. *)
Record pool_reconnect := Pool_reconnect { pr_p : ptr; pr_tv : timeval }.

(** hiredis's [redisAsyncContext], the fields pool.c reads, and the
    address that identifies the handle. *)
Record redisAsyncContext := RedisAsyncContext {
  ac_addr : ptr;
  err : Z;
  errstr : option string;
  data : option ptr }.

(** hiredis's [redisReply], the fields pool.c reads. *)
Record redisReply := RedisReply { type : Z; str : option string }.

(** The memory of the process, and the calls made so far. *)
Record world := World {
  srv : server;
  pools : gmap ptr pool;
  tasks : gmap ptr pool_reconnect;
  out : list event }.

Definition emit (evs : list event) (w : world) : world :=
  World (srv w) (pools w) (tasks w) (out w ++ evs).

Definition set_srv (s : server) (w : world) : world :=
  World s (pools w) (tasks w) (out w).

Definition set_pool (pp : ptr) (p : pool) (w : world) : world :=
  World (srv w) (<[pp := p]> (pools w)) (tasks w) (out w).

Definition set_task (pr : ptr) (t : pool_reconnect) (w : world) : world :=
  World (srv w) (pools w) (<[pr := t]> (tasks w)) (out w).

(** [free(pr)]. *)
Definition free_task (pr : ptr) (w : world) : world :=
  World (srv w) (pools w) (delete pr (tasks w)) (out w).

Definition set_ac (slots : list (option ptr)) (p : pool) : pool :=
  Pool (p_w p) (count p) slots.

Definition set_auth_logged (n : Z) (s : server) : server :=
  Server (base s) (cfg s) (log_self s) (log_fd s) (log_fsync_tv s)
    (log_fsync_ev s) n.

Definition set_log_self (pid : Z) (s : server) : server :=
  Server (base s) (cfg s) pid (log_fd s) (log_fsync_tv s) (log_fsync_ev s)
    (auth_logged s).

Definition set_log_fd (fd : Z) (s : server) : server :=
  Server (base s) (cfg s) (log_self s) fd (log_fsync_tv s) (log_fsync_ev s)
    (auth_logged s).

Definition set_log_fsync_ev (ev : option ptr) (s : server) : server :=
  Server (base s) (cfg s) (log_self s) (log_fd s) (log_fsync_tv s) ev
    (auth_logged s).

Definition set_log_fsync_tv (tv : timeval) (s : server) : server :=
  Server (base s) (cfg s) (log_self s) (log_fd s) tv (log_fsync_ev s)
    (auth_logged s).

(** ** slog.c *)

Section Sources.

(** Modelled from the spec: SLOG_MSG_MAX_LEN is defined in slog.h, which
    is not among the sources; it is the fixed maximum length of a
    message body.  slog.c refuses to compile unless it is at least 64. *)
Variable SLOG_MSG_MAX_LEN : Z.

Definition sizeof_msg : Z := 1 + SLOG_MSG_MAX_LEN.
Definition sizeof_line : Z := 2 * SLOG_MSG_MAX_LEN.

(** [slog_init], given what [getpid] and [open] return and, for an
    [open] that fails, the text of [strerror(errno)]. *)
Definition slog_init (pid open_ret : Z) (reason : string) (s : server)
  : server * list event :=
  let s := set_log_self pid s in
  match logfile (cfg s) with
  | Some path =>
      let old_fd := log_fd s in
      let s := set_log_fd open_ret s in
      (* close old log *)
      let closed := if negb (old_fd =? -1) then [Close old_fd] else [] in
      if negb (log_fd s =? -1) then (s, Open path :: closed)
      else
        (set_log_fd 2 s, (* stderr *)
         Open path :: closed ++
         [Fprintf_stderr ("Could not open " +:+ path +:+ ": " +:+ reason +:+
                          String "010"%char "")])
  | None => (set_log_fd 2 s, [])
  end.

(** [slog_enabled]. *)
Definition slog_enabled (s : server) (level : log_level) : Z :=
  if level_num level <=? verbosity (cfg s) then 1 else 0.

(** The letter of a level: [level == WEBDIS_TRACE ? c[5] : c[level]]. *)
Definition level_letter (level : log_level) : ascii :=
  let c := "EWNIDT" in
  default "000"%char
    (if decide (level = WEBDIS_TRACE) then String.get 5 c
     else String.get (Z.to_nat (level_num level)) c).

(** The output of ["[%d] %s %c %s\n"]. *)
Definition fmt_line (pid : Z) (time_buf : string) (letter : ascii) (msg : string)
  : string :=
  "[" +:+ fmt_d pid +:+ "] " +:+ time_buf +:+ " " +:+ String letter " " +:+
  msg +:+ String "010"%char "".

(** [write(fd, buf, n)] from a buffer that holds the C string [buf] and
    its NUL: reading further is not defined. *)
Definition write_buf (fd : Z) (buf : string) (n : Z) : option event :=
  if (0 <=? n) && (n <=? strlen buf + 1)
  then Some (Write fd (take_s (Z.to_nat n) (buf +:+ String "000"%char "")))
  else None.

(** The first [snprintf] of [slog_internal], into [msg]: "limit
    message size". *)
Definition slog_msg (body : string) (sz : Z) : option (option string * Z) :=
  let sz := if sz =? 0 then strlen body else sz in
  snprintf sizeof_msg None
    (if size_t (sz + 1) >? sizeof_msg then sizeof_msg else size_t (sz + 1))
    body.

(** What [slog_internal] leaves in [time_buf]. *)
Definition slog_time (e : env) : string :=
  match localtime e with
  | Some lt => strftime lt
  | None => "(NO TIME AVAILABLE)"
  end.

(** The second [snprintf] of [slog_internal], into [line]: "generate
    output line". *)
Definition slog_line (s : server) (e : env) (level : log_level) (msg : string)
  : option (option string * Z) :=
  let letter := level_letter level in
  snprintf sizeof_line None sizeof_line
    (fmt_line (sint (log_self s)) (slog_time e) letter msg).

(** [slog_internal]: the calls it makes, in order. *)
Definition slog_internal (s : server) (e : env) (level : log_level)
    (body : string) (sz : Z) : option (list event) :=
  if log_fd s =? 0 then Some []
  else
    '(msg, _) ← slog_msg body sz;
    msg ← msg;
    '(line, line_sz) ← slog_line s e level msg;
    line ← line;
    (* write to log and maybe flush to disk. *)
    w ← write_buf (log_fd s) line line_sz;
    Some (w :: if decide (fsync_mode (cfg s) = LOG_FSYNC_ALL)
               then [Fsync (log_fd s)] else []).

(** [slog]: the thin wrapper that checks the level first. *)
Definition slog (s : server) (e : env) (level : log_level)
    (body : string) (sz : Z) : option (list event) :=
  if level_num level <=? verbosity (cfg s)
  then slog_internal s e level body sz
  else Some [].

(** [slog_fsync_tick], the callback of the fsync timer. *)
Definition slog_fsync_tick (w : world) : option world :=
  Some (emit [Fsync (log_fd (srv w))] w).

Definition evnew_error : string := "fsync timer could not be created".
Definition evadd_reason : string := "fsync timer could not be added: %d".

(** [slog_fsync_init]. *)
Definition slog_fsync_init (e : env) (w : world) : option world :=
  let s := srv w in
  if negb (bool_decide (fsync_mode (cfg s) = LOG_FSYNC_MILLIS)) then Some w
  else
    (* install a libevent timer for handling fsync *)
    let s := set_log_fsync_ev (event_new_ret e) s in
    let w := emit [Event_new (base s) (-1) EV_PERSIST Slog_fsync_tick]
               (set_srv s w) in
    match log_fsync_ev s with
    | None =>
        evs ← slog s e WEBDIS_ERROR evnew_error (sizeof_str evnew_error - 1);
        Some (emit evs w)
    | Some ev =>
        let period_usec := sint (fsync_period_millis (cfg s) * 1000) in
        let s := set_log_fsync_tv
                   (Timeval (period_usec `quot` 1000000)
                            (period_usec `rem` 1000000)) s in
        let w := emit [Event_add ev (log_fsync_tv s)] (set_srv s w) in
        let ret_ta := event_add_ret e in
        if negb (ret_ta =? 0) then
          let cap := sizeof_str evadd_reason + 16 in (* plenty of extra space *)
          '(error_msg, error_len) ←
            snprintf cap None cap (fmt1 evadd_reason (fmt_d ret_ta));
          error_msg ← error_msg;
          evs ← slog s e WEBDIS_ERROR error_msg (size_t error_len);
          Some (emit evs w)
        else Some w
    end.

(** ** pool.c *)

(** [pool_new], given the address [calloc] returns for the pool. *)
Definition pool_new (e : env) (wk : worker) (count : Z) (w : world)
  : option (ptr * world) :=
  pp ← heap e;
  Some (pp, set_pool pp (Pool wk count (replicate (Z.to_nat count) None)) w).

(** Modelled from the spec: [pool_connect] is declared in pool.h and
    defined outside the sources.  It asks the backend library to open a
    new asynchronous link for the pool and returns without blocking;
    the request is recorded with the pool, the database index and the
    reconnect flag it was given. *)
Definition pool_connect (pp : ptr) (db_num : Z) (attach : Z) (w : world)
  : option world :=
  Some (emit [Connect_request pp db_num attach] w).

(** [pool_can_connect], the callback of a reconnect timer. *)
Definition pool_can_connect (pr : ptr) (w : world) : option world :=
  task ← tasks w !! pr;
  let pp := pr_p task in
  let w := free_task pr w in
  _ ← pools w !! pp;
  pool_connect pp (database (cfg (srv w))) 1 w.

(** [evtimer_set(ev, cb, arg)] is libevent's
    [event_set(ev, -1, 0, cb, arg)], and [evtimer_add] its [event_add]. *)
Definition evtimer_set (ev : ptr) (cb : callback) : event :=
  Event_set ev (-1) 0 cb.

(** [pool_schedule_reconnect]. *)
Definition pool_schedule_reconnect (e : env) (pp : ptr) (w : world)
  : option world :=
  pr ← heap e;
  let tv := Timeval 0 (100 * 1000) in (* 0.1 sec *)
  let w := set_task pr (Pool_reconnect pp tv) w in
  p ← pools w !! pp;
  Some (emit [evtimer_set pr (Pool_can_connect pr);
              Event_base_set (w_base (p_w p)) pr;
              Event_add pr tv] w).

(** The loop of [pool_on_connect]: [n] iterations are left, from
    index [i]. *)
Fixpoint pool_add (n i : nat) (slots : list (option ptr)) (a : ptr)
  : option (list (option ptr)) :=
  match n with
  | O => Some slots
  | S n' =>
      slot ← slots !! i;
      match slot with
      | None => Some (<[i := Some a]> slots)
      | Some _ => pool_add n' (S i) slots a
      end
  end.

(** [pool_on_connect]. *)
Definition pool_on_connect (e : env) (c : redisAsyncContext) (status : Z)
    (w : world) : option world :=
  let p := data c in
  if bool_decide (p = None) || (status =? REDIS_ERR) || negb (err c =? 0) then
    match p with
    | Some pp => pool_schedule_reconnect e pp w
    | None => Some w
    end
  else
    pp ← p;
    pl ← pools w !! pp;
    (* add to pool *)
    slots ← pool_add (Z.to_nat (count pl)) 0 (ac pl) (ac_addr c);
    Some (set_pool pp (set_ac slots pl) w).

(** The loop of [pool_on_disconnect]. *)
Fixpoint pool_remove (n i : nat) (slots : list (option ptr)) (a : ptr)
  : option (list (option ptr)) :=
  match n with
  | O => Some slots
  | S n' =>
      slot ← slots !! i;
      if bool_decide (slot = Some a) then Some (<[i := None]> slots)
      else pool_remove n' (S i) slots a
  end.

(** The block of [pool_on_disconnect] that reports a disconnection
    whose status is not REDIS_OK. *)
Definition log_disconnect (s : server) (e : env) (c : redisAsyncContext)
    (status : Z) : option (list event) :=
  if negb (status =? REDIS_OK) then
    let format := "Error disconnecting: %s" in
    let msg_sz :=
      size_t (sizeof_str format - 2 +
              match errstr c with Some x => strlen x | None => 6 end) in
    match heap e with
    | Some _ =>
        '(log_msg, _) ←
          snprintf (size_t (msg_sz + 1)) (calloc_buf (size_t (msg_sz + 1)))
            (size_t (msg_sz + 1))
            (fmt1 format (default "(null)" (errstr c)));
        log_msg ← log_msg;
        slog s e WEBDIS_ERROR log_msg (size_t (msg_sz - 1))
    | None => Some []
    end
  else Some [].

(** [pool_on_disconnect]. *)
Definition pool_on_disconnect (e : env) (c : redisAsyncContext) (status : Z)
    (w : world) : option world :=
  match data c with
  | None => Some w (* no need to clean anything here. *)
  | Some pp =>
      pl ← pools w !! pp;
      evs ← log_disconnect (srv w) e c status;
      (* remove from the pool *)
      slots ← pool_remove (Z.to_nat (count pl)) 0 (ac pl) (ac_addr c);
      (* schedule reconnect *)
      pool_schedule_reconnect e pp (set_pool pp (set_ac slots pl) (emit evs w))
  end.

(** [pool_log_auth]. *)
Definition pool_log_auth (s : server) (e : env) (level : log_level)
    (format : string) (format_len : Z) (str : option string)
  : option (list event) :=
  (* -2 for `%s`, 6 for "(null)", +1 for \0 *)
  let msg_size :=
    size_t (format_len - 2 +
            match str with Some x => strlen x | None => 6 end + 1) in
  match heap e with
  | Some _ =>
      '(msg, _) ← snprintf msg_size (calloc_buf msg_size) msg_size
                    (fmt1 format (default "(null)" str));
      msg ← msg;
      slog s e level msg (size_t (msg_size - 1))
  | None => Some []
  end.

Definition err_format : string := "Authentication failed: %s".
Definition ok_format : string := "Authentication succeeded: %s".

(** [pool_on_auth_complete]; the body between the lock and the unlock
    of [auth_log_mutex] runs as one step. *)
Definition pool_on_auth_complete (e : env) (r : option redisReply) (data : ptr)
    (w : world) : option world :=
  _ ← pools w !! data;
  let s := srv w in
  match r with
  | None => Some w
  | Some reply =>
      if negb (auth_logged s =? 0) then Some w
      else
        evs ← (if type reply =? REDIS_REPLY_ERROR then
                 pool_log_auth s e WEBDIS_ERROR err_format
                   (sizeof_str err_format - 1) (str reply)
               else if type reply =? REDIS_REPLY_STATUS then
                 pool_log_auth s e WEBDIS_INFO ok_format
                   (sizeof_str ok_format - 1) (str reply)
               else Some []);
        Some (emit evs (set_srv (set_auth_logged (sint (auth_logged s + 1)) s) w))
  end.

(** ** The event loop and executions *)

(** libevent running the callback of a timer that fires. *)
Definition run_callback (cb : callback) (w : world) : option world :=
  match cb with
  | Pool_can_connect pr => pool_can_connect pr w
  | Slog_fsync_tick => slog_fsync_tick w
  end.

(** What hiredis delivers to a pool: a connect callback that reports
    success, or a disconnect callback with its status. *)
Inductive conn_event :=
  | Connected (c : redisAsyncContext)
  | Disconnected (c : redisAsyncContext) (status : Z).

Definition deliver (e : env) (ev : conn_event) (w : world) : option world :=
  match ev with
  | Connected c => pool_on_connect e c REDIS_OK w
  | Disconnected c status => pool_on_disconnect e c status w
  end.

(** A sequence of connect and disconnect events, one after the other. *)
Fixpoint deliver_all (evs : list (env * conn_event)) (w : world)
  : option world :=
  match evs with
  | [] => Some w
  | (e, ev) :: evs => w ← deliver e ev w; deliver_all evs w
  end.

(** A sequence of completed authentications, in the order in which
    they take [auth_log_mutex]. *)
Fixpoint complete_all (rs : list (env * option redisReply)) (data : ptr)
    (w : world) : option world :=
  match rs with
  | [] => Some w
  | (e, r) :: rs => w ← pool_on_auth_complete e r data w; complete_all rs data w
  end.

End Sources.

(** ** Vocabulary of the properties *)

(** The number of lines written to the sink. *)
Fixpoint lines (evs : list event) : nat :=
  match evs with
  | [] => 0
  | Write _ _ :: evs => S (lines evs)
  | _ :: evs => lines evs
  end.

(** No handle occupies two slots. *)
Definition exclusive (slots : list (option ptr)) : Prop :=
  ∀ i j a, slots !! i = Some (Some a) → slots !! j = Some (Some a) → i = j.

(** [x] is in slot [i] and in no slot before it. *)
Definition first_at (x : option ptr) (slots : list (option ptr)) (i : nat)
  : Prop :=
  slots !! i = Some x ∧ ∀ j, (j < i)%nat → slots !! j ≠ Some x.

(** The array of a pool has as many slots as [count] says. *)
Definition pool_wf (p : pool) : Prop := count p = Z.of_nat (length (ac p)).

(** The first completion whose reply is not [NULL]. *)
Fixpoint first_reply (rs : list (env * option redisReply))
  : option (env * redisReply) :=
  match rs with
  | [] => None
  | (e, Some reply) :: _ => Some (e, reply)
  | (_, None) :: rs => first_reply rs
  end.

(** The line [slog_internal] writes for a message. *)
Definition log_line (M : Z) (s : server) (e : env) (level : log_level)
    (body : string) : string :=
  fmt_line (sint (log_self s)) (slog_time e) (level_letter level)
    (take_s (Z.to_nat M) body).

(** The length [slog_internal] limits the message by. *)
Definition slog_len (body : string) (sz : Z) : Z :=
  if sz =? 0 then strlen body else sz.

(** The calls [pool_schedule_reconnect] makes for the task at [pr] of
    a pool whose owner runs the event loop [evbase]. *)
Definition reconnect_calls (pr evbase : ptr) : list event :=
  [Event_set pr (-1) 0 (Pool_can_connect pr);
   Event_base_set evbase pr;
   Event_add pr (Timeval 0 100000)].

(** What a call [slog(s, level, body, strlen(body))] makes of calls: a
    line and, under LOG_FSYNC_ALL, its fsync, if the level passes the
    verbosity and the sink is set; nothing otherwise. *)
Definition log_events (M : Z) (s : server) (e : env) (level : log_level)
    (body : string) : list event :=
  if (level_num level <=? verbosity (cfg s)) && negb (log_fd s =? 0) then
    Write (log_fd s) (log_line M s e level body)
    :: if decide (fsync_mode (cfg s) = LOG_FSYNC_ALL)
       then [Fsync (log_fd s)] else []
  else [].

(** A text that, with the fixed part of a message around it and the
    NUL after it, has a length a [size_t] holds. *)
Definition fits (text : string) : Prop := strlen text + 64 <= SIZE_MAX.

(** A libevent event whose flags [events] make it stay armed after it
    fires; without the flag it fires once. *)
Definition persistent (events : Z) : Prop := Z.land events EV_PERSIST ≠ 0.

(** The duration of a [timeval], in microseconds. *)
Definition timeval_usec (tv : timeval) : Z := tv_sec tv * 1000000 + tv_usec tv.

(** The text of a reply, as [%s] prints it. *)
Definition reply_text (reply : redisReply) : string := default "(null)" (str reply).

(** A reply that carries the outcome of an authentication. *)
Definition outcome (reply : redisReply) : bool :=
  (type reply =? REDIS_REPLY_ERROR) || (type reply =? REDIS_REPLY_STATUS).

(** What the completion of an authentication with [reply] makes of
    calls when it is the one that is logged. *)
Definition auth_events (M : Z) (s : server) (e : env) (reply : redisReply)
  : list event :=
  if type reply =? REDIS_REPLY_ERROR then
    log_events M s e WEBDIS_ERROR ("Authentication failed: " +:+ reply_text reply)
  else if type reply =? REDIS_REPLY_STATUS then
    log_events M s e WEBDIS_INFO ("Authentication succeeded: " +:+ reply_text reply)
  else [].

(** A completion during which the allocator grants storage and whose
    reply, if there is one, has a text of representable length. *)
Definition granted (er : env * option redisReply) : Prop :=
  heap er.1 ≠ None ∧ ∀ reply, er.2 = Some reply → fits (reply_text reply).

(** The lines a run adds to those written before it. *)
Definition new_lines (w w' : world) : nat :=
  lines (drop (length (out w)) (out w')).

(** Auth-logged-once as the specification words it: of the
    completions [rs], one line if some completion carries an error or
    status reply, none if every reply is missing. *)
Definition auth_logged_once_claim (M : Z) (rs : list (env * option redisReply))
    (data : ptr) (w : world) : Prop :=
  ∀ w', complete_all M rs data w = Some w' →
    (Exists (λ er, ∃ reply, er.2 = Some reply ∧ outcome reply = true) rs →
       new_lines w w' = 1%nat) ∧
    (Forall (λ er, er.2 = None) rs → new_lines w w' = 0%nat).



(** Every pool of the world has exclusive slots. *)
Definition exclusive_pools (w : world) : Prop :=
  ∀ pp pl, pools w !! pp = Some pl → exclusive (ac pl).

(** Slot exclusivity after a sequence of connect and disconnect
    events, whether hiredis can deliver it or not. *)
Definition slot_exclusivity_claim (M : Z) (evs : list (env * conn_event))
    (w : world) : Prop :=
  ∀ w', deliver_all M evs w = Some w' → exclusive_pools w'.

(** ** Sample data *)

(** A value of SLOG_MSG_MAX_LEN that slog.c accepts. *)
Definition M0 : Z := 124.

Definition cfg0 (mode : log_fsync_mode) : conf := Conf 0 None 4 mode 250.

Definition s0 : server :=
  Server 1%N (cfg0 LOG_FSYNC_ALL) 4242 2 (Timeval 0 0) None 0.

Definition e0 : env :=
  Env (Some 100%N) (Some (Tm 7 5 13 30 9)) (Some 200%N) 0.

Definition pl0 : pool := Pool (Worker 77%N) 2 [None; None].

(** One pool of two empty slots at address 10. *)
Definition w0 : world := World s0 {[ 10%N := pl0 ]} ∅ [].

(** The same with the handle 500 in the first slot. *)
Definition w_conn : world :=
  World s0 {[ 10%N := Pool (Worker 77%N) 2 [Some 500%N; None] ]} ∅ [].

(** The world [w0] under another fsync policy. *)
Definition w_mode (mode : log_fsync_mode) : world :=
  World (Server 1%N (cfg0 mode) 4242 2 (Timeval 0 0) None 0)
    {[ 10%N := pl0 ]} ∅ [].

Definition c1 : redisAsyncContext :=
  RedisAsyncContext 500%N 0 (Some "Connection reset") (Some 10%N).

Definition c_nopool : redisAsyncContext :=
  RedisAsyncContext 501%N 0 None None.

Definition r_integer : redisReply := RedisReply 3 None.
Definition r_wrongpass : redisReply :=
  RedisReply REDIS_REPLY_ERROR (Some "WRONGPASS").
Definition r_ok : redisReply := RedisReply REDIS_REPLY_STATUS (Some "OK").

(** A message of 300 characters. *)
Definition long_body : string := string_of_list_ascii (repeat "x"%char 300).

(** An allocator with nothing to give. *)
Definition e_nomem : env :=
  Env None (Some (Tm 7 5 13 30 9)) (Some 200%N) 0.

(** The allocator answering with another address. *)
Definition e_next : env :=
  Env (Some 101%N) (Some (Tm 8 5 13 30 9)) (Some 200%N) 0.

(** libevent refusing to create the fsync timer, and to add it. *)
Definition e_noevent : env :=
  Env (Some 100%N) (Some (Tm 7 5 13 30 9)) None 0.
Definition e_noadd : env :=
  Env (Some 100%N) (Some (Tm 7 5 13 30 9)) (Some 200%N) (-1).

(** The handle 500 reporting an error. *)
Definition c_err : redisAsyncContext :=
  RedisAsyncContext 500%N 1 (Some "Connection refused") (Some 10%N).

(** A zeroed server configured with a log file. *)
Definition s_file : server :=
  Server 1%N (Conf 0 (Some "webdis.log") 4 LOG_FSYNC_AUTO 250) 0 0
    (Timeval 0 0) None 0.

(** The world [w0] under LOG_FSYNC_MILLIS with a period of one hour. *)
Definition w_hour : world :=
  World (Server 1%N (Conf 0 None 4 LOG_FSYNC_MILLIS 3600000) 4242 2
           (Timeval 0 0) None 0)
    {[ 10%N := pl0 ]} ∅ [].

(** One pool at address 10 whose two slots are taken. *)
Definition w_full : world :=
  World s0 {[ 10%N := Pool (Worker 77%N) 2 [Some 7%N; Some 8%N] ]} ∅ [].

(** ** Vocabulary of the further properties *)

(** Every pool of the world has as many slots as its [count] says. *)
Definition wf_pools (w : world) : Prop :=
  ∀ pp pl, pools w !! pp = Some pl → pool_wf pl.

(** The pool [pl'] has the owner, the count and the number of slots of
    [pl]. *)
Definition same_pool_shape (pl pl' : pool) : Prop :=
  p_w pl' = p_w pl ∧ count pl' = count pl ∧ length (ac pl') = length (ac pl).

(** The two worlds have pools at the same addresses, of the same shape. *)
Definition same_shape (w w' : world) : Prop :=
  ∀ pp, match pools w !! pp, pools w' !! pp with
        | Some pl, Some pl' => same_pool_shape pl pl'
        | None, None => True
        | _, _ => False
        end.

(** The number of timers armed. *)
Fixpoint timers (evs : list event) : nat :=
  match evs with
  | [] => 0
  | Event_add _ _ :: evs => S (timers evs)
  | _ :: evs => timers evs
  end.

(** The number of connect requests made. *)
Fixpoint requests (evs : list event) : nat :=
  match evs with
  | [] => 0
  | Connect_request _ _ _ :: evs => S (requests evs)
  | _ :: evs => requests evs
  end.

Definition handle_of (ev : conn_event) : redisAsyncContext :=
  match ev with Connected c => c | Disconnected c _ => c end.

(** The events after which the pool asks for a reconnect: a disconnect,
    or a connect whose handle reports an error, of a handle with a pool. *)
Definition schedules (ev : conn_event) : bool :=
  match ev with
  | Connected c => bool_decide (data c ≠ None) && negb (err c =? 0)
  | Disconnected c _ => bool_decide (data c ≠ None)
  end.

(** The events that are reported: a disconnect, of a handle with a
    pool, whose status is not REDIS_OK. *)
Definition unclean (ev : conn_event) : bool :=
  match ev with
  | Connected _ => false
  | Disconnected c status => bool_decide (data c ≠ None) && negb (status =? REDIS_OK)
  end.

(** How many events of a sequence satisfy [f]. *)
Fixpoint tally (f : conn_event → bool) (evs : list (env * conn_event)) : nat :=
  match evs with
  | [] => 0
  | (_, ev) :: evs => ((if f ev then 1 else 0) + tally f evs)%nat
  end.

(** An event delivered while the allocator grants storage, whose handle
    has no pool or one of the pools of [w], and whose error string has a
    representable length. *)
Definition deliverable (w : world) (er : env * conn_event) : Prop :=
  heap er.1 ≠ None ∧
  (∀ pp, data (handle_of er.2) = Some pp → is_Some (pools w !! pp)) ∧
  fits (default "(null)" (errstr (handle_of er.2))).

(** A connect attempt that fails, followed by the timer of the
    reconnect it schedules firing. *)
Definition fail_and_fire (e : env) (c : redisAsyncContext) (w : world)
  : option world :=
  w ← pool_on_connect e c REDIS_ERR w;
  pr ← heap e;
  run_callback (Pool_can_connect pr) w.

Fixpoint fail_and_fire_all (attempts : list (env * redisAsyncContext))
    (w : world) : option world :=
  match attempts with
  | [] => Some w
  | (e, c) :: attempts => w ← fail_and_fire e c w; fail_and_fire_all attempts w
  end.

(** The calls of a sequence of failed attempts for the pool [pp], each
    followed by its timer firing: the timer is armed, then the new
    connection is requested. *)
Definition retry_calls (pp evbase : ptr) (db : Z)
    (attempts : list (env * redisAsyncContext)) : list event :=
  flat_map (λ ec, match heap ec.1 with
                  | Some pr => reconnect_calls pr evbase ++ [Connect_request pp db 1]
                  | None => []
                  end) attempts.

(** ** Lengths of strings *)

Global Arguments sint : simpl never.
Global Arguments size_t : simpl never.
Global Arguments strlen : simpl never.
Global Arguments snprintf : simpl never.
Global Arguments slog : simpl never.
Global Arguments slog_internal : simpl never.
Global Arguments fmt_d : simpl never.
Global Arguments fmt_line : simpl never.

Lemma strlen_nonneg s : 0 <= strlen s.
Proof. unfold strlen. lia. Qed.

Lemma app_nil_s b : "" +:+ b = b.
Proof. reflexivity. Qed.

Lemma app_cons_s c a b : String c a +:+ b = String c (a +:+ b).
Proof. reflexivity. Qed.

Lemma strlen_app a b : strlen (a +:+ b) = strlen a + strlen b.
Proof.
  unfold strlen. induction a as [|c a IH].
  - rewrite app_nil_s. simpl. lia.
  - rewrite app_cons_s. simpl String.length. rewrite !Nat2Z.inj_succ. lia.
Qed.

Lemma strlen_String c s : strlen (String c s) = 1 + strlen s.
Proof. unfold strlen. simpl. lia. Qed.

Lemma take_s_length n s :
  String.length (take_s n s) = Nat.min n (String.length s).
Proof.
  revert s. induction n as [|n IH]; intros [|c s]; simpl; auto.
Qed.

Lemma strlen_take_s k s : 0 <= k → strlen (take_s (Z.to_nat k) s) = Z.min k (strlen s).
Proof. intros Hk. unfold strlen. rewrite take_s_length. lia. Qed.

Lemma take_s_all n s : (String.length s ≤ n)%nat → take_s n s = s.
Proof.
  revert s. induction n as [|n IH]; intros [|c s]; simpl; intros H;
    try reflexivity; try lia.
  f_equal. apply IH. lia.
Qed.

Lemma take_s_app a b : take_s (String.length a) (a +:+ b) = a.
Proof.
  induction a as [|c a IH]; [by destruct b|].
  rewrite app_cons_s. simpl. by f_equal.
Qed.

Lemma take_s_take_s n m s : take_s n (take_s m s) = take_s (Nat.min n m) s.
Proof.
  revert m s. induction n as [|n IH]; intros [|m] [|c s]; simpl; auto.
  by f_equal.
Qed.

Lemma dec_digits_length fuel n acc :
  (String.length (dec_digits fuel n acc) ≤ fuel + String.length acc)%nat.
Proof.
  revert n acc. induction fuel as [|fuel IH]; intros n acc; simpl; [lia|].
  destruct (n / 10 =? 0); simpl; [lia|].
  etrans; [apply IH|]. simpl. lia.
Qed.

Lemma fmt_d_length z : strlen (fmt_d z) <= 11.
Proof.
  unfold fmt_d, strlen. destruct (z <? 0); simpl.
  - pose proof (dec_digits_length 10 (- z) ""). simpl in *. lia.
  - pose proof (dec_digits_length 10 z ""). simpl in *. lia.
Qed.

Lemma month_abbr_length m : strlen (month_abbr m) = 3.
Proof.
  unfold month_abbr. generalize (Z.to_nat m). intros n.
  do 12 (destruct n as [|n]; [reflexivity|]). by destruct n.
Qed.

Lemma two_digits_length n : strlen (two_digits n) = 2.
Proof. reflexivity. Qed.

Lemma strftime_length lt : strlen (strftime lt) = 15.
Proof.
  unfold strftime. rewrite !strlen_app, !two_digits_length, month_abbr_length.
  reflexivity.
Qed.

Lemma slog_time_length e : strlen (slog_time e) <= 19.
Proof.
  unfold slog_time. destruct (localtime e).
  - rewrite strftime_length. lia.
  - reflexivity.
Qed.

Lemma fmt_line_length pid t l msg :
  strlen (fmt_line pid t l msg) = strlen (fmt_d pid) + strlen t + strlen msg + 7.
Proof.
  unfold fmt_line. rewrite !strlen_app, !strlen_String.
  change (strlen "[") with 1. change (strlen "] ") with 2.
  change (strlen " ") with 1. change (strlen "") with 0. lia.
Qed.

Lemma take_s_min n s : take_s (Nat.min n (String.length s)) s = take_s n s.
Proof.
  revert s. induction n as [|n IH]; intros [|c s]; simpl; auto.
  by f_equal.
Qed.

Lemma app_nil_r_s s : s +:+ "" = s.
Proof.
  induction s as [|c s IH]; [reflexivity|]. rewrite app_cons_s. by f_equal.
Qed.

Lemma size_t_small x : 0 <= x <= SIZE_MAX → size_t x = x.
Proof. unfold size_t, SIZE_MAX. intros. apply Z.mod_small. lia. Qed.

(** ** Properties of slog.c *)

Section SlogProperties.

Variable M : Z.
Hypothesis M_min : 64 <= M.

Lemma slog_msg_spec body sz :
  0 <= sz < SIZE_MAX → strlen body < SIZE_MAX →
  slog_msg M body sz =
    Some (Some (take_s (Z.to_nat (Z.min (slog_len body sz) M)) body), strlen body).
Proof using M_min.
  intros Hsz Hbody. unfold slog_msg, slog_len, sizeof_msg.
  pose proof (strlen_nonneg body) as Hb.
  set (n := if sz =? 0 then strlen body else sz).
  assert (0 <= n < SIZE_MAX) as Hn by (subst n; destruct (Z.eqb_spec sz 0); lia).
  rewrite size_t_small by lia. unfold snprintf.
  destruct (Z.gtb_spec (n + 1) (1 + M)) as [Hgt|Hle].
  - destruct (Z.eqb_spec (1 + M) 0) as [?|_]; [lia|].
    replace (1 + M - 1) with M by lia.
    rewrite strlen_take_s by lia.
    destruct (Z.leb_spec (Z.min M (strlen body) + 1) (1 + M)); [|lia].
    by replace (Z.min n M) with M by lia.
  - destruct (Z.eqb_spec (n + 1) 0) as [?|_]; [lia|].
    replace (n + 1 - 1) with n by lia.
    rewrite strlen_take_s by lia.
    destruct (Z.leb_spec (Z.min n (strlen body) + 1) (1 + M)); [|lia].
    by replace (Z.min n M) with n by lia.
Qed.

Lemma slog_line_spec s e level msg :
  strlen msg <= M →
  let full := fmt_line (sint (log_self s)) (slog_time e) (level_letter level) msg in
  slog_line M s e level msg = Some (Some full, strlen full) ∧
  strlen full + 1 <= sizeof_line M.
Proof using M_min.
  intros Hmsg full. unfold slog_line, sizeof_line, snprintf. fold full.
  assert (strlen full <= 2 * M - 1) as Hfull.
  { subst full. rewrite fmt_line_length.
    pose proof (fmt_d_length (sint (log_self s))).
    pose proof (slog_time_length e). lia. }
  split; [|lia].
  destruct (Z.eqb_spec (2 * M) 0) as [?|_]; [lia|].
  rewrite take_s_all by (unfold strlen in Hfull; lia).
  by destruct (Z.leb_spec (strlen full + 1) (2 * M)); [|lia].
Qed.

Lemma write_buf_spec fd line : write_buf fd line (strlen line) = Some (Write fd line).
Proof.
  unfold write_buf. pose proof (strlen_nonneg line).
  destruct (Z.leb_spec 0 (strlen line)); [|lia].
  destruct (Z.leb_spec (strlen line) (strlen line + 1)); [|lia].
  simpl. unfold strlen. by rewrite Nat2Z.id, take_s_app.
Qed.

Lemma slog_internal_spec s e level body sz :
  log_fd s ≠ 0 → 0 <= sz < SIZE_MAX → strlen body < SIZE_MAX →
  slog_internal M s e level body sz =
    Some (Write (log_fd s)
            (fmt_line (sint (log_self s)) (slog_time e) (level_letter level)
               (take_s (Z.to_nat (Z.min (slog_len body sz) M)) body))
          :: if decide (fsync_mode (cfg s) = LOG_FSYNC_ALL)
             then [Fsync (log_fd s)] else []).
Proof using M_min.
  intros Hfd Hsz Hbody. unfold slog_internal.
  destruct (Z.eqb_spec (log_fd s) 0) as [?|_]; [done|].
  rewrite slog_msg_spec by done. simpl.
  set (msg := take_s _ body).
  assert (strlen msg <= M) as Hmsg.
  { subst msg. unfold slog_len. pose proof (strlen_nonneg body).
    rewrite strlen_take_s by (destruct (sz =? 0); lia). lia. }
  destruct (slog_line_spec s e level msg Hmsg) as [-> _]. simpl.
  by rewrite write_buf_spec.
Qed.

End SlogProperties.

(** After [slog_init] the sink is the descriptor [open] returned, or
    stderr; it passes the test [slog_internal] makes first unless [open]
    returned descriptor 0. *)
Lemma slog_init_fd pid open_ret reason s :
  let fd := log_fd (slog_init pid open_ret reason s).1 in
  fd ≠ -1 ∧ (fd = open_ret ∨ fd = 2) ∧ (open_ret ≠ 0 → fd ≠ 0).
Proof.
  unfold slog_init. simpl. destruct (logfile (cfg s)); simpl; [|lia].
  destruct (Z.eqb_spec open_ret (-1)); simpl; lia.
Qed.

Lemma sint_small x : INT_MIN <= x <= INT_MAX → sint x = x.
Proof.
  unfold sint, INT_MIN, INT_MAX. intros. rewrite Z.mod_small by lia. lia.
Qed.

Lemma slog_lines M s e level body sz evs :
  slog M s e level body sz = Some evs → (lines evs ≤ 1)%nat.
Proof.
  unfold slog, slog_internal. intros H.
  destruct (level_num level <=? verbosity (cfg s));
    [|simplify_eq; simpl; lia].
  destruct (log_fd s =? 0); [simplify_eq; simpl; lia|].
  destruct (slog_msg M body sz) as [[[msg|] ?]|]; simpl in H; try done.
  destruct (slog_line M s e level msg) as [[[line|] n]|]; simpl in H; try done.
  destruct (write_buf (log_fd s) line n) as [ev|] eqn:Hw; simpl in H; try done.
  simplify_eq. unfold write_buf in Hw.
  destruct (_ && _) in Hw; simplify_eq. simpl. case_decide; simpl; lia.
Qed.

(** C7 (level gating).  A call of [slog] whose level is numerically
    above the configured verbosity writes nothing, and [slog_enabled]
    answers 0 for it; a call whose level is at or below the verbosity
    writes one non-empty line to the sink, and [slog_enabled] answers 1
    for it.  For the line, the sink is one that is set ([log_fd] is not
    0, the test [slog_internal] makes first), and the length passed and
    the length of the message are below SIZE_MAX. *)
Theorem slog_level_gate (M : Z) (s : server) (e : env) (level : log_level)
    (body : string) (sz : Z) :
  (verbosity (cfg s) < level_num level →
     slog_enabled s level = 0 ∧ slog M s e level body sz = Some []) ∧
  (level_num level <= verbosity (cfg s) →
     slog_enabled s level = 1 ∧
     (64 <= M → log_fd s ≠ 0 → 0 <= sz < SIZE_MAX → strlen body < SIZE_MAX →
      ∃ line rest,
        slog M s e level body sz = Some (Write (log_fd s) line :: rest) ∧
        0 < strlen line ∧ lines rest = 0%nat)).
Proof.
  unfold slog, slog_enabled. split; intros Hlevel.
  - by destruct (Z.leb_spec (level_num level) (verbosity (cfg s))); [lia|].
  - destruct (Z.leb_spec (level_num level) (verbosity (cfg s))); [|lia].
    split; [done|]. intros HM Hfd Hsz Hbody.
    rewrite slog_internal_spec by done.
    eexists _, _. split; [reflexivity|]. split.
    + rewrite fmt_line_length.
      pose proof (strlen_nonneg (fmt_d (sint (log_self s)))).
      pose proof (strlen_nonneg (slog_time e)).
      pose proof (strlen_nonneg
                    (take_s (Z.to_nat (Z.min (slog_len body sz) M)) body)).
      lia.
    + by case_decide.
Qed.

(** C8 (log truncation safety).  For a message of any length,
    [slog_internal] is defined (no store and no read leaves a buffer):
    what it stores in [msg] is the body cut to at most
    SLOG_MSG_MAX_LEN characters, which with its NUL fits [msg]; the line
    is formatted from that truncated body and with its NUL fits [line];
    and what is written to the sink is that line, shorter than the line
    buffer. *)
Theorem slog_internal_bounded (M : Z) (s : server) (e : env) (level : log_level)
    (body : string) (sz : Z) :
  64 <= M → 0 <= sz < SIZE_MAX → strlen body < SIZE_MAX →
  ∃ msg line,
    slog_msg M body sz = Some (Some msg, strlen body) ∧
    msg = take_s (Z.to_nat M) (take_s (Z.to_nat (slog_len body sz)) body) ∧
    strlen msg <= M ∧ strlen msg + 1 <= sizeof_msg M ∧
    slog_line M s e level msg = Some (Some line, strlen line) ∧
    line = fmt_line (sint (log_self s)) (slog_time e) (level_letter level) msg ∧
    strlen line + 1 <= sizeof_line M ∧
    slog_internal M s e level body sz =
      Some (if log_fd s =? 0 then []
            else Write (log_fd s) line
                 :: if decide (fsync_mode (cfg s) = LOG_FSYNC_ALL)
                    then [Fsync (log_fd s)] else []).
Proof.
  intros HM Hsz Hbody.
  set (msg := take_s (Z.to_nat (Z.min (slog_len body sz) M)) body).
  assert (0 <= slog_len body sz) as Hlen.
  { unfold slog_len. pose proof (strlen_nonneg body). destruct (sz =? 0); lia. }
  assert (strlen msg <= M) as Hmsg.
  { subst msg. rewrite strlen_take_s by lia. lia. }
  destruct (slog_line_spec M HM s e level msg Hmsg) as [Hline Hfit].
  exists msg, (fmt_line (sint (log_self s)) (slog_time e) (level_letter level) msg).
  split; [by apply slog_msg_spec|]. split.
  { subst msg. rewrite take_s_take_s. f_equal. lia. }
  split; [done|]. split; [unfold sizeof_msg; lia|].
  split; [done|]. split; [done|]. split; [done|].
  destruct (Z.eqb_spec (log_fd s) 0) as [Hfd|Hfd].
  - unfold slog_internal. by rewrite Hfd.
  - by apply slog_internal_spec.
Qed.

Lemma slog_fsync_init_off M e w :
  fsync_mode (cfg (srv w)) ≠ LOG_FSYNC_MILLIS → slog_fsync_init M e w = Some w.
Proof. intros Hmode. unfold slog_fsync_init. by rewrite bool_decide_false. Qed.

Lemma sint_range x : INT_MIN <= sint x <= INT_MAX.
Proof.
  unfold sint, INT_MIN, INT_MAX.
  pose proof (Z.mod_pos_bound (x + 2 ^ 31) (2 ^ 32)). lia.
Qed.

Lemma sint_wraps x : INT_MAX < x < 2 ^ 32 → sint x = x - 2 ^ 32.
Proof.
  unfold sint, INT_MAX. intros Hx.
  replace (x + 2 ^ 31) with (x - 2 ^ 31 + 1 * 2 ^ 32) by lia.
  rewrite Z.mod_add by lia. rewrite Z.mod_small by lia. lia.
Qed.

(** C9 (fsync fidelity).  Under LOG_FSYNC_ALL every line that
    [slog_internal] writes is followed, before it returns, by one fsync
    of the sink, and [slog_fsync_init] installs no timer.  Under
    LOG_FSYNC_MILLIS [slog_internal] writes its line and makes no fsync
    call; [slog_fsync_init] installs, on the server's event loop
    (libevent granting the timer), a persistent timer whose callback,
    each time it runs, makes exactly one fsync call.  Whatever the
    configured number of milliseconds, the period of that timer is the
    [int] that [period_millis * 1000] gives: it is the configured period
    exactly when that product fits an [int], and from 2147484
    milliseconds up to 4294967 the timer is armed with a negative
    duration, the product less 2^32 microseconds.  Under LOG_FSYNC_AUTO
    [slog_internal] makes no fsync call and no timer is installed. *)
Theorem fsync_fidelity (M : Z) (e : env) (level : log_level) (body : string)
    (sz : Z) (w : world) :
  let s := srv w in
  64 <= M → log_fd s ≠ 0 → 0 <= sz < SIZE_MAX → strlen body < SIZE_MAX →
  ∃ line,
    match fsync_mode (cfg s) with
    | LOG_FSYNC_ALL =>
        slog_internal M s e level body sz
          = Some [Write (log_fd s) line; Fsync (log_fd s)] ∧
        slog_fsync_init M e w = Some w
    | LOG_FSYNC_MILLIS =>
        slog_internal M s e level body sz = Some [Write (log_fd s) line] ∧
        (∀ w1, run_callback Slog_fsync_tick w1
                 = Some (emit [Fsync (log_fd (srv w1))] w1)) ∧
        (∀ ev, event_new_ret e = Some ev → event_add_ret e = 0 →
           ∃ w' flags tv,
             slog_fsync_init M e w = Some w' ∧
             out w' = out w ++ [Event_new (base s) (-1) flags Slog_fsync_tick;
                                Event_add ev tv] ∧
             persistent flags ∧
             tv_sec tv = sint (fsync_period_millis (cfg s) * 1000) `quot` 1000000 ∧
             tv_usec tv = sint (fsync_period_millis (cfg s) * 1000) `rem` 1000000 ∧
             timeval_usec tv = sint (fsync_period_millis (cfg s) * 1000) ∧
             (timeval_usec tv = fsync_period_millis (cfg s) * 1000 ↔
              INT_MIN <= fsync_period_millis (cfg s) * 1000 <= INT_MAX) ∧
             (0 <= fsync_period_millis (cfg s) * 1000 <= INT_MAX →
              0 <= tv_sec tv ∧ 0 <= tv_usec tv < 1000 * 1000) ∧
             (INT_MAX < fsync_period_millis (cfg s) * 1000 < 2 ^ 32 →
              timeval_usec tv = fsync_period_millis (cfg s) * 1000 - 2 ^ 32 ∧
              timeval_usec tv < 0) ∧
             log_fsync_ev (srv w') = Some ev ∧ log_fsync_tv (srv w') = tv ∧
             log_fd (srv w') = log_fd s ∧ cfg (srv w') = cfg s ∧
             pools w' = pools w ∧ tasks w' = tasks w)
    | LOG_FSYNC_AUTO =>
        slog_internal M s e level body sz = Some [Write (log_fd s) line] ∧
        slog_fsync_init M e w = Some w
    end.
Proof.
  intros s HM Hfd Hsz Hbody.
  pose proof (slog_internal_spec M HM s e level body sz Hfd Hsz Hbody) as Hint.
  eexists. destruct (fsync_mode (cfg s)) eqn:Hmode.
  - split; [by rewrite Hint|]. apply slog_fsync_init_off. fold s. by rewrite Hmode.
  - split; [by rewrite Hint|]. split; [done|].
    intros ev Hnew Hadd. unfold slog_fsync_init. fold s.
    rewrite Hmode, bool_decide_true by done.
    cbn [negb log_fsync_ev set_log_fsync_ev]. rewrite Hnew, Hadd.
    change (negb (0 =? 0)) with false. cbv iota.
    cbn [cfg base log_fsync_tv set_log_fsync_tv set_log_fsync_ev].
    set (period := fsync_period_millis (cfg s) * 1000) in *.
    pose proof (sint_range period) as Hrange.
    eexists _, EV_PERSIST, _. split; [reflexivity|].
    cbn [out srv emit set_srv cfg log_fd log_fsync_ev log_fsync_tv pools tasks
         tv_sec tv_usec].
    split; [by rewrite <-app_assoc|]. split; [done|].
    do 2 (split; [done|]).
    assert (sint period `quot` 1000000 * 1000000 + sint period `rem` 1000000
            = sint period) as Husec
      by (pose proof (Z.quot_rem' (sint period) 1000000); lia).
    unfold timeval_usec. cbn [tv_sec tv_usec]. split; [done|]. rewrite Husec.
    split.
    { split; [by intros <-|]. intros Hfits. by apply sint_small. }
    split.
    { intros Hpos. rewrite sint_small by (unfold INT_MIN; lia).
      split; [apply Z.quot_pos; lia|apply Z.rem_bound_pos; lia]. }
    split.
    { intros Hover. rewrite sint_wraps by done.
      unfold INT_MAX in Hover. lia. }
    done.
  - split; [by rewrite Hint|]. apply slog_fsync_init_off. fold s. by rewrite Hmode.
Qed.

(** ** Properties of pool.c *)

(** *** The two loops over the slots *)

Lemma pool_add_hit n i slots a k :
  (i ≤ k < i + n)%nat → first_at None slots k →
  pool_add n i slots a = Some (<[k := Some a]> slots).
Proof.
  revert i. induction n as [|n IH]; intros i Hk [Hat Hbefore]; [lia|].
  simpl. destruct (decide (i = k)) as [->|Hne].
  - by rewrite Hat.
  - destruct (slots !! i) as [slot|] eqn:Hi.
    + simpl. destruct slot as [h|].
      * apply IH; [lia|done].
      * destruct (Hbefore i); [lia|done].
    + apply lookup_ge_None in Hi. apply lookup_lt_Some in Hat. lia.
Qed.

Lemma pool_add_miss n i slots a :
  (i + n ≤ length slots)%nat → None ∉ slots → pool_add n i slots a = Some slots.
Proof.
  revert i. induction n as [|n IH]; intros i Hn Hfull; [done|].
  simpl. destruct (lookup_lt_is_Some_2 slots i) as [slot Hi]; [lia|].
  rewrite Hi. simpl. destruct slot as [h|].
  - apply IH; [lia|done].
  - destruct Hfull. by eapply list_elem_of_lookup_2.
Qed.

Lemma pool_add_shape n i slots a slots' :
  pool_add n i slots a = Some slots' →
  slots' = slots ∨ ∃ k, slots !! k = Some None ∧ slots' = <[k := Some a]> slots.
Proof.
  revert i. induction n as [|n IH]; intros i H; simpl in H; [left; congruence|].
  destruct (slots !! i) as [[h|]|] eqn:Hi; simpl in H; [eauto| |done].
  right. exists i. split; [done|congruence].
Qed.

Lemma pool_remove_hit n i slots a k :
  (i ≤ k < i + n)%nat → first_at (Some a) slots k →
  pool_remove n i slots a = Some (<[k := None]> slots).
Proof.
  revert i. induction n as [|n IH]; intros i Hk [Hat Hbefore]; [lia|].
  simpl. destruct (decide (i = k)) as [->|Hne].
  - rewrite Hat. simpl. by rewrite bool_decide_true.
  - destruct (slots !! i) as [slot|] eqn:Hi.
    + simpl. case_bool_decide as Hslot.
      * subst slot. destruct (Hbefore i); [lia|done].
      * apply IH; [lia|done].
    + apply lookup_ge_None in Hi. apply lookup_lt_Some in Hat. lia.
Qed.

Lemma pool_remove_miss n i slots a :
  (i + n ≤ length slots)%nat → Some a ∉ slots →
  pool_remove n i slots a = Some slots.
Proof.
  revert i. induction n as [|n IH]; intros i Hn Hnot; [done|].
  simpl. destruct (lookup_lt_is_Some_2 slots i) as [slot Hi]; [lia|].
  rewrite Hi. simpl. case_bool_decide as Hslot.
  - subst slot. destruct Hnot. by eapply list_elem_of_lookup_2.
  - apply IH; [lia|done].
Qed.

Lemma pool_remove_shape n i slots a slots' :
  pool_remove n i slots a = Some slots' →
  slots' = slots ∨ ∃ k, slots' = <[k := None]> slots.
Proof.
  revert i. induction n as [|n IH]; intros i H; simpl in H; [left; congruence|].
  destruct (slots !! i) as [slot|] eqn:Hi; simpl in H; [|done].
  case_bool_decide; [|eauto]. right. exists i. congruence.
Qed.

Lemma first_at_bound x slots k : first_at x slots k → (k < length slots)%nat.
Proof. intros [Hat _]. by eapply lookup_lt_Some. Qed.



Lemma exclusive_replicate n : exclusive (replicate n None).
Proof. intros i j a Hi _. by apply lookup_replicate in Hi as [? _]. Qed.

(** *** Scheduling a reconnect *)

Lemma pool_schedule_reconnect_spec e pp w pl pr :
  pools w !! pp = Some pl → heap e = Some pr →
  pool_schedule_reconnect e pp w =
    Some (emit (reconnect_calls pr (w_base (p_w pl)))
            (set_task pr (Pool_reconnect pp (Timeval 0 100000)) w)).
Proof.
  intros Hpp Hheap. unfold pool_schedule_reconnect. rewrite Hheap. simpl.
  by rewrite Hpp.
Qed.


(** *** One call of the logger *)

Lemma slog_spec M s e level body :
  64 <= M → strlen body < SIZE_MAX →
  slog M s e level body (strlen body) = Some (log_events M s e level body).
Proof.
  intros HM Hbody. unfold slog, log_events. pose proof (strlen_nonneg body).
  destruct (level_num level <=? verbosity (cfg s)); [|done]. simpl.
  destruct (Z.eqb_spec (log_fd s) 0) as [Hfd|Hfd]; simpl.
  - unfold slog_internal. by rewrite Hfd.
  - rewrite slog_internal_spec by (done || lia). unfold log_line.
    do 4 f_equal. unfold slog_len. replace (if _ =? 0 then _ else _) with (strlen body)
      by (by destruct (strlen body =? 0)).
    unfold strlen. rewrite Z2Nat.inj_min, Nat2Z.id, Nat.min_comm.
    apply take_s_min.
Qed.

Lemma lines_log_events M s e level body : (lines (log_events M s e level body) ≤ 1)%nat.
Proof.
  unfold log_events. destruct (_ && _); simpl; [|lia]. case_decide; simpl; lia.
Qed.

Lemma lines_log_events_on M s e level body :
  level_num level <= verbosity (cfg s) → log_fd s ≠ 0 →
  lines (log_events M s e level body) = 1%nat.
Proof.
  intros Hlevel Hfd. unfold log_events.
  destruct (Z.leb_spec (level_num level) (verbosity (cfg s))); [|lia].
  destruct (Z.eqb_spec (log_fd s) 0); [done|]. simpl. by case_decide.
Qed.

Lemma lines_app evs1 evs2 : lines (evs1 ++ evs2) = (lines evs1 + lines evs2)%nat.
Proof.
  induction evs1 as [|ev evs1 IH]; [done|]. destruct ev; simpl; by rewrite ?IH.
Qed.

Lemma new_lines_app w w' evs : out w' = out w ++ evs → new_lines w w' = lines evs.
Proof. unfold new_lines. intros ->. by rewrite drop_app_length. Qed.

(** A message made of a fixed text and one [%s]. *)
Lemma message_spec M s e level cap size text sz :
  64 <= M → strlen text < SIZE_MAX →
  strlen text + 1 <= size → cap = size → sz = strlen text →
  ('(msg, _) ← snprintf cap (calloc_buf cap) size text;
   msg ← msg; slog M s e level msg sz)
  = Some (log_events M s e level text).
Proof.
  intros HM Htext Hsize -> ->. pose proof (strlen_nonneg text).
  unfold snprintf. destruct (Z.eqb_spec size 0); [lia|].
  rewrite take_s_all by (unfold strlen in *; lia).
  destruct (Z.leb_spec (strlen text + 1) size); [|lia].
  simpl. by apply slog_spec.
Qed.

Lemma fmt1_err_format m : fmt1 err_format m = "Authentication failed: " +:+ m.
Proof. unfold err_format. simpl. by rewrite app_nil_r_s. Qed.

Lemma fmt1_ok_format m : fmt1 ok_format m = "Authentication succeeded: " +:+ m.
Proof. unfold ok_format. simpl. by rewrite app_nil_r_s. Qed.

Lemma fmt1_disconnect m :
  fmt1 "Error disconnecting: %s" m = "Error disconnecting: " +:+ m.
Proof. simpl. by rewrite app_nil_r_s. Qed.

Lemma pool_log_auth_spec M s e level format prefix str :
  64 <= M → heap e ≠ None → fits (default "(null)" str) →
  fmt1 format (default "(null)" str) = prefix +:+ default "(null)" str →
  strlen format = strlen prefix + 2 → strlen prefix <= 32 →
  pool_log_auth M s e level format (sizeof_str format - 1) str
    = Some (log_events M s e level (prefix +:+ default "(null)" str)).
Proof.
  intros HM Hheap Hfits Hfmt Hlen Hprefix. unfold pool_log_auth, sizeof_str, fits in *.
  destruct (heap e) as [a|]; [|done]. rewrite Hfmt.
  set (m := default "(null)" str) in *.
  assert (strlen m = match str with Some x => strlen x | None => 6 end) as <-
    by (by destruct str).
  pose proof (strlen_nonneg m). pose proof (strlen_nonneg prefix).
  assert (strlen (prefix +:+ m) = strlen prefix + strlen m) as Happ
    by apply strlen_app.
  unfold SIZE_MAX in *.
  rewrite !size_t_small by (unfold SIZE_MAX; rewrite ?size_t_small;
                            unfold SIZE_MAX; lia).
  apply message_spec; unfold SIZE_MAX; lia.
Qed.

Lemma first_at_exists (x : option ptr) (slots : list (option ptr)) :
  x ∈ slots → ∃ i, first_at x slots i.
Proof.
  intros Hin.
  destruct (list_find_elem_of (λ y, y = x) slots x Hin eq_refl) as [[i y] Hfind].
  apply list_find_Some in Hfind as (Hi & -> & Hbefore).
  exists i. split; [done|]. intros j Hj Hlook. by eapply Hbefore.
Qed.

Lemma first_at_unique x slots i j : first_at x slots i → first_at x slots j → i = j.
Proof.
  intros [Hi Hbi] [Hj Hbj].
  destruct (Nat.lt_trichotomy i j) as [?|[?|?]]; [|done|].
  - by destruct (Hbj i).
  - by destruct (Hbi j).
Qed.

Lemma set_pool_same pp pl w : pools w !! pp = Some pl → set_pool pp pl w = w.
Proof.
  intros H. destruct w as [s ps ts o]. unfold set_pool. simpl in *.
  f_equal. by apply insert_id.
Qed.

Lemma set_ac_same pl : set_ac (ac pl) pl = pl.
Proof. by destruct pl. Qed.

(** *** The callbacks of a connection *)

(** C4 (connect callback).  With a pool attached to the handle: when
    the status is REDIS_ERR or the handle reports an error, the callback
    is [pool_schedule_reconnect], which leaves the slots as they are and
    (storage for the task being granted) stores one reconnect task and
    arms its timer; otherwise the pool found afterwards at the same
    address holds the handle in the slot that was the first empty one,
    scanning from index 0, every other slot, its owner and its count
    being as before, and nothing else in the world changes; if no slot
    is empty the world, and so the slot array, is unchanged. *)
Theorem pool_on_connect_spec (e : env) (c : redisAsyncContext) (status : Z)
    (w : world) (pp : ptr) (pl : pool) :
  data c = Some pp → pools w !! pp = Some pl → pool_wf pl →
  (status = REDIS_ERR ∨ err c ≠ 0 →
     pool_on_connect e c status w = pool_schedule_reconnect e pp w ∧
     ∀ pr, heap e = Some pr →
       ∃ w', pool_on_connect e c status w = Some w' ∧
             srv w' = srv w ∧ pools w' = pools w ∧
             tasks w' = <[pr := Pool_reconnect pp (Timeval 0 100000)]> (tasks w) ∧
             out w' = out w ++ reconnect_calls pr (w_base (p_w pl))) ∧
  (status ≠ REDIS_ERR → err c = 0 →
     (∀ i, first_at None (ac pl) i →
        ∃ w' pl',
          pool_on_connect e c status w = Some w' ∧
          pools w' !! pp = Some pl' ∧
          ac pl' = <[i := Some (ac_addr c)]> (ac pl) ∧
          ac pl' !! i = Some (Some (ac_addr c)) ∧
          (∀ j, j ≠ i → ac pl' !! j = ac pl !! j) ∧
          length (ac pl') = length (ac pl) ∧
          p_w pl' = p_w pl ∧ count pl' = count pl ∧
          (∀ pp', pp' ≠ pp → pools w' !! pp' = pools w !! pp') ∧
          srv w' = srv w ∧ tasks w' = tasks w ∧ out w' = out w) ∧
     (None ∉ ac pl → pool_on_connect e c status w = Some w)).
Proof.
  intros Hdata Hpp Hwf. unfold pool_on_connect. rewrite Hdata.
  rewrite bool_decide_false by done. cbn [orb]. split.
  - intros Hfail.
    assert ((status =? REDIS_ERR) || negb (err c =? 0) = true) as ->.
    { destruct Hfail as [->|Herr]; [done|].
      destruct (Z.eqb_spec (err c) 0); [done|]. by rewrite orb_true_r. }
    simpl. split; [done|]. intros pr Hheap.
    rewrite (pool_schedule_reconnect_spec e pp w pl pr) by done.
    by eexists.
  - intros Hstatus Herr.
    destruct (Z.eqb_spec status REDIS_ERR); [done|].
    rewrite Herr. simpl. rewrite Hpp. simpl.
    unfold pool_wf in Hwf. rewrite Hwf, Nat2Z.id. split.
    + intros i Hi. pose proof (first_at_bound _ _ _ Hi) as Hlt.
      rewrite (pool_add_hit _ 0 _ _ i) by (done || lia).
      eexists _, _. split; [reflexivity|]. simpl.
      split; [apply lookup_insert_eq|]. simpl. split; [done|].
      split; [by apply list_lookup_insert_eq|].
      split; [intros j Hj; by apply list_lookup_insert_ne|].
      split; [apply length_insert|]. do 2 (split; [done|]).
      split; [|done]. intros pp' Hne. by apply lookup_insert_ne.
    + intros Hfull. rewrite pool_add_miss by (done || lia). simpl.
      by rewrite set_ac_same, set_pool_same.
Qed.

(** C10 (callbacks of a handle with no pool).  When the handle's user
    data is [NULL], the connect callback and the disconnect callback,
    whatever the status, return the world as it was: no slot changes, no
    line is written, no reconnect task is stored and no timer is armed. *)
Theorem callbacks_without_pool (M : Z) (e : env) (c : redisAsyncContext)
    (status : Z) (w : world) :
  data c = None →
  pool_on_connect e c status w = Some w ∧
  pool_on_disconnect M e c status w = Some w.
Proof.
  intros Hdata. unfold pool_on_connect, pool_on_disconnect. by rewrite Hdata.
Qed.

(** C6 (reconnect task).  Scheduling a reconnect stores one task for
    the pool and arms for it a timer that is not persistent, on the
    event loop of the pool's owner, with a delay of 100 milliseconds and
    [pool_can_connect] on the task as its callback.  When the timer
    fires, the callback frees the task and then makes exactly one
    connect request, for the pool of the task, with the configured
    database and the reconnect flag 1. *)
Theorem reconnect_task (e : env) (pp pr : ptr) (pl : pool) (w : world) :
  pools w !! pp = Some pl → heap e = Some pr →
  ∃ w1 flags tv,
    pool_schedule_reconnect e pp w = Some w1 ∧
    srv w1 = srv w ∧ pools w1 = pools w ∧
    tasks w1 = <[pr := Pool_reconnect pp tv]> (tasks w) ∧
    out w1 = out w ++ [Event_set pr (-1) flags (Pool_can_connect pr);
                       Event_base_set (w_base (p_w pl)) pr;
                       Event_add pr tv] ∧
    ¬ persistent flags ∧
    timeval_usec tv = 100 * 1000 ∧
    ∀ w2, tasks w2 !! pr = Some (Pool_reconnect pp tv) → is_Some (pools w2 !! pp) →
      run_callback (Pool_can_connect pr) w2
        = pool_connect pp (database (cfg (srv w2))) 1 (free_task pr w2) ∧
      tasks (free_task pr w2) !! pr = None ∧
      run_callback (Pool_can_connect pr) w2
        = Some (emit [Connect_request pp (database (cfg (srv w2))) 1]
                  (free_task pr w2)).
Proof.
  intros Hpp Hheap. rewrite (pool_schedule_reconnect_spec e pp w pl pr) by done.
  eexists _, 0, (Timeval 0 100000). split; [reflexivity|].
  do 4 (split; [done|]). split; [by intros []|]. split; [done|].
  intros w2 Htask [pl2 Hpl2].
  assert (run_callback (Pool_can_connect pr) w2
          = pool_connect pp (database (cfg (srv w2))) 1 (free_task pr w2)) as Hrun.
  { simpl. unfold pool_can_connect. rewrite Htask. simpl. by rewrite Hpl2. }
  split; [done|]. split; [apply lookup_delete_eq|]. by rewrite Hrun.
Qed.

Lemma pool_remove_total (pl : pool) (a : ptr) :
  pool_wf pl →
  ∃ slots,
    pool_remove (Z.to_nat (count pl)) 0 (ac pl) a = Some slots ∧
    (∀ i, first_at (Some a) (ac pl) i → slots = <[i := None]> (ac pl)) ∧
    (Some a ∉ ac pl → slots = ac pl).
Proof.
  intros Hwf. unfold pool_wf in Hwf. rewrite Hwf, Nat2Z.id.
  destruct (decide (Some a ∈ ac pl)) as [Hin|Hnot].
  - destruct (first_at_exists _ _ Hin) as [k Hk].
    pose proof (first_at_bound _ _ _ Hk).
    exists (<[k := None]> (ac pl)). split; [apply pool_remove_hit; [lia|done]|].
    split; [|done]. intros i Hi. by rewrite (first_at_unique _ _ _ _ Hi Hk).
  - exists (ac pl). split; [by apply pool_remove_miss|]. split; [|done].
    intros i [Hi _]. destruct Hnot. by eapply list_elem_of_lookup_2.
Qed.


(** *** The completion of an authentication *)

Lemma emit_nil w : emit [] w = w.
Proof. destruct w. unfold emit. simpl. by rewrite app_nil_r. Qed.

Lemma pool_log_auth_lines M s e level format n str evs :
  pool_log_auth M s e level format n str = Some evs → (lines evs ≤ 1)%nat.
Proof.
  unfold pool_log_auth. intros H.
  destruct (heap e); [|simplify_eq; simpl; lia].
  destruct (snprintf _ _ _ _) as [[[msg|] ?]|]; simpl in H; try done.
  by eapply slog_lines.
Qed.

Lemma auth_step_cases M e r data w w' :
  pool_on_auth_complete M e r data w = Some w' →
  w' = w ∨
  auth_logged (srv w) = 0 ∧
  ∃ evs, w' = emit evs (set_srv (set_auth_logged 1 (srv w)) w) ∧
         (lines evs ≤ 1)%nat.
Proof.
  unfold pool_on_auth_complete. intros H.
  destruct (pools w !! data); simpl in H; [|done].
  destruct r as [reply|]; [|left; congruence].
  destruct (Z.eqb_spec (auth_logged (srv w)) 0) as [Hflag|?]; simpl in H;
    [|left; congruence].
  right. split; [done|]. rewrite Hflag in H.
  change (sint (0 + 1)) with 1 in H.
  destruct (type reply =? REDIS_REPLY_ERROR).
  - destruct (pool_log_auth _ _ _ _ _ _ _) as [evs|] eqn:Hlog; simpl in H; [|done].
    exists evs. split; [congruence|]. by eapply pool_log_auth_lines.
  - destruct (type reply =? REDIS_REPLY_STATUS).
    + destruct (pool_log_auth _ _ _ _ _ _ _) as [evs|] eqn:Hlog; simpl in H; [|done].
      exists evs. split; [congruence|]. by eapply pool_log_auth_lines.
    + simpl in H. exists []. split; [congruence|]. simpl. lia.
Qed.

Lemma auth_step_logged M e r data w pl :
  pools w !! data = Some pl → auth_logged (srv w) ≠ 0 →
  pool_on_auth_complete M e r data w = Some w.
Proof.
  intros Hpl Hflag. unfold pool_on_auth_complete. rewrite Hpl. simpl.
  destruct r; [|done]. by destruct (Z.eqb_spec (auth_logged (srv w)) 0).
Qed.

Lemma complete_all_logged M rs data w pl :
  pools w !! data = Some pl → auth_logged (srv w) ≠ 0 →
  complete_all M rs data w = Some w.
Proof.
  intros Hpl Hflag. induction rs as [|[e r] rs IH]; [done|].
  simpl. by rewrite (auth_step_logged M e r data w pl).
Qed.

Lemma complete_all_lines M rs data w w' :
  complete_all M rs data w = Some w' →
  ∃ evs, out w' = out w ++ evs ∧ (lines evs ≤ 1)%nat.
Proof.
  revert w. induction rs as [|[e r] rs IH]; intros w H; simpl in H.
  { exists []. simplify_eq. rewrite app_nil_r. split; [done|simpl; lia]. }
  destruct (pool_on_auth_complete M e r data w) as [w1|] eqn:Hstep;
    simpl in H; [|done].
  destruct (auth_step_cases _ _ _ _ _ _ Hstep) as [->|(Hflag & evs & -> & Hevs)];
    [by apply IH|].
  exists evs. split; [|done].
  assert (is_Some (pools w !! data)) as [pl Hpl].
  { unfold pool_on_auth_complete in Hstep.
    destruct (pools w !! data); [by eexists|done]. }
  erewrite complete_all_logged in H; [by simplify_eq|done|done].
Qed.

Lemma auth_step_first M e reply data w pl :
  64 <= M → pools w !! data = Some pl → auth_logged (srv w) = 0 →
  heap e ≠ None → fits (reply_text reply) →
  pool_on_auth_complete M e (Some reply) data w =
    Some (emit
            (if type reply =? REDIS_REPLY_ERROR then
               log_events M (srv w) e WEBDIS_ERROR
                 ("Authentication failed: " +:+ reply_text reply)
             else if type reply =? REDIS_REPLY_STATUS then
               log_events M (srv w) e WEBDIS_INFO
                 ("Authentication succeeded: " +:+ reply_text reply)
             else [])
            (set_srv (set_auth_logged 1 (srv w)) w)).
Proof.
  intros HM Hpl Hflag Hheap Hfits. unfold pool_on_auth_complete.
  rewrite Hpl, Hflag. simpl. change (sint (0 + 1)) with 1.
  rewrite (pool_log_auth_spec M (srv w) e WEBDIS_ERROR err_format
             "Authentication failed: " (str reply))
    by (done || apply fmt1_err_format).
  rewrite (pool_log_auth_spec M (srv w) e WEBDIS_INFO ok_format
             "Authentication succeeded: " (str reply))
    by (done || apply fmt1_ok_format).
  fold (reply_text reply).
  by destruct (type reply =? REDIS_REPLY_ERROR),
              (type reply =? REDIS_REPLY_STATUS).
Qed.

(** C3 (authentication completion).  For a reply that is not [NULL]
    (the callback's context being a pool): if [auth_logged] is set the
    callback changes nothing and makes no call; otherwise an error reply
    is one call of the logger at error level with "Authentication
    failed: " and the reply's text, a status reply one call at info
    level with "Authentication succeeded: " and the reply's text, a
    reply of another type no call, and in the three cases [auth_logged]
    becomes 1; with the sink set and the verbosity at info or above that
    is one line written for an error or status reply and none for
    another.  Whatever the sequence of completions and the state it
    starts in, at most one line is written. *)
Theorem pool_on_auth_complete_spec (M : Z) (e : env) (reply : redisReply)
    (data : ptr) (w : world) (pl : pool) :
  let logged := set_srv (set_auth_logged 1 (srv w)) w in
  (64 <= M → pools w !! data = Some pl →
   (auth_logged (srv w) ≠ 0 →
      pool_on_auth_complete M e (Some reply) data w = Some w) ∧
   (auth_logged (srv w) = 0 → heap e ≠ None → fits (reply_text reply) →
      (type reply = REDIS_REPLY_ERROR →
         pool_on_auth_complete M e (Some reply) data w =
           Some (emit (log_events M (srv w) e WEBDIS_ERROR
                         ("Authentication failed: " +:+ reply_text reply))
                   logged)) ∧
      (type reply = REDIS_REPLY_STATUS →
         pool_on_auth_complete M e (Some reply) data w =
           Some (emit (log_events M (srv w) e WEBDIS_INFO
                         ("Authentication succeeded: " +:+ reply_text reply))
                   logged)) ∧
      (type reply ≠ REDIS_REPLY_ERROR → type reply ≠ REDIS_REPLY_STATUS →
         pool_on_auth_complete M e (Some reply) data w = Some logged) ∧
      (log_fd (srv w) ≠ 0 → level_num WEBDIS_INFO <= verbosity (cfg (srv w)) →
       ∃ w', pool_on_auth_complete M e (Some reply) data w = Some w' ∧
             new_lines w w' = if outcome reply then 1%nat else 0%nat))) ∧
  (∀ rs w', complete_all M rs data w = Some w' →
     ∃ evs, out w' = out w ++ evs ∧ (lines evs ≤ 1)%nat).
Proof.
  intros logged. split; [|intros rs w'; apply complete_all_lines].
  intros HM Hpl. split; [by apply (auth_step_logged _ _ _ _ _ pl)|].
  intros Hflag Hheap Hfits.
  rewrite (auth_step_first M e reply data w pl) by done. fold logged.
  split; [by intros ->|]. split; [by intros ->|]. split.
  - intros Herr Hst.
    destruct (Z.eqb_spec (type reply) REDIS_REPLY_ERROR); [done|].
    destruct (Z.eqb_spec (type reply) REDIS_REPLY_STATUS); [done|].
    by rewrite emit_nil.
  - intros Hfd Hverb. eexists. split; [reflexivity|].
    erewrite new_lines_app; [|reflexivity]. unfold outcome. simpl in Hverb.
    destruct (type reply =? REDIS_REPLY_ERROR); simpl.
    { apply lines_log_events_on; simpl; [lia|done]. }
    destruct (type reply =? REDIS_REPLY_STATUS); simpl; [|done].
    by apply lines_log_events_on.
Qed.

(** C1, amended (auth logged once).  For every sequence of completed
    authentications that starts with [auth_logged] clear, storage being
    granted: the calls made are those of the first completion whose
    reply is not [NULL], one call of the logger if that reply is an
    error or a status reply, none if it has another type, and none at
    all if every reply is [NULL].  With the sink set and the verbosity at
    info or above that is exactly one line in the first case and no
    line in the others. *)
Theorem auth_logged_once (M : Z) (rs : list (env * option redisReply))
    (data : ptr) (w : world) (pl : pool) :
  64 <= M → pools w !! data = Some pl → auth_logged (srv w) = 0 →
  Forall granted rs →
  ∃ w', complete_all M rs data w = Some w' ∧
        out w' = out w ++ match first_reply rs with
                          | Some (e, reply) => auth_events M (srv w) e reply
                          | None => []
                          end ∧
        (log_fd (srv w) ≠ 0 → level_num WEBDIS_INFO <= verbosity (cfg (srv w)) →
         new_lines w w' = match first_reply rs with
                          | Some (_, reply) => if outcome reply then 1%nat else 0%nat
                          | None => 0%nat
                          end).
Proof.
  intros HM Hpl Hflag Hrs.
  induction Hrs as [|[e [reply|]] rs [Hheap Hfits] _ IH].
  - exists w. split; [done|]. split; [by rewrite app_nil_r|]. intros _ _.
    apply (new_lines_app _ _ []). by rewrite app_nil_r.
  - simpl in *. rewrite (auth_step_first M e reply data w pl) by auto.
    fold (auth_events M (srv w) e reply).
    set (w1 := emit _ _). simpl.
    exists w1. split; [by apply (complete_all_logged M rs data w1 pl)|].
    split; [done|]. intros Hfd Hverb.
    rewrite (new_lines_app w w1 (auth_events M (srv w) e reply)) by done.
    unfold auth_events, outcome. simpl in Hverb.
    destruct (type reply =? REDIS_REPLY_ERROR); simpl.
    { apply lines_log_events_on; simpl; [lia|done]. }
    destruct (type reply =? REDIS_REPLY_STATUS); simpl; [|done].
    by apply lines_log_events_on.
  - simpl. unfold pool_on_auth_complete at 1. rewrite Hpl. simpl. apply IH.
Qed.

(** *** Exclusive slots *)



Lemma pool_new_exclusive e wk n w pp w' :
  pool_new e wk n w = Some (pp, w') → exclusive_pools w → exclusive_pools w'.
Proof.
  unfold pool_new. intros H Hex. destruct (heap e) as [a|]; simpl in H; [|done].
  simplify_eq. intros pp' pl'. simpl.
  destruct (decide (pp = pp')) as [<-|Hne].
  - rewrite lookup_insert_eq. intros [= <-]. apply exclusive_replicate.
  - rewrite lookup_insert_ne by done. apply Hex.
Qed.


(** ** The properties at sample inputs *)

(** C1 as stated fails: a reply that is neither an error nor a status
    comes first and sets [auth_logged]; the error reply "WRONGPASS" that
    follows is not logged, so no line is written although a completion
    carries an error reply. *)
Lemma auth_logged_once_counterexample :
  ¬ auth_logged_once_claim M0
      [(e0, Some r_integer); (e0, Some r_wrongpass)] 10%N w0.
Proof.
  intros Hclaim.
  destruct (Hclaim (set_srv (set_auth_logged 1 s0) w0)) as [Hone _].
  { vm_compute. reflexivity. }
  assert (new_lines w0 (set_srv (set_auth_logged 1 s0) w0) = 1%nat) as Hlines.
  { apply Hone. apply Exists_cons_tl, Exists_cons_hd. by exists r_wrongpass. }
  vm_compute in Hlines. discriminate.
Qed.

(** Exclusivity rests on how hiredis delivers its events: pool.c keeps
    no record of the handles it was given, and two connect-success
    callbacks for one handle, which hiredis does not deliver, would put
    it in both slots of the pool. *)
Remark exclusivity_rests_on_delivery :
  ¬ slot_exclusivity_claim M0 [(e0, Connected c1); (e0, Connected c1)] w0.
Proof.
  intros Hclaim.
  specialize (Hclaim
    (World s0 {[ 10%N := Pool (Worker 77%N) 2 [Some 500%N; Some 500%N] ]} ∅ [])).
  assert (exclusive [Some 500%N; Some 500%N]) as Hex.
  { apply (Hclaim ltac:(vm_compute; reflexivity) 10%N
             (Pool (Worker 77%N) 2 [Some 500%N; Some 500%N]) eq_refl). }
  by specialize (Hex 0%nat 1%nat 500%N eq_refl eq_refl).
Qed.

(** The gate at verbosity 4: a trace message is dropped, an info
    message is written. *)
Lemma slog_level_gate_witness :
  (64 <= M0 ∧ log_fd s0 ≠ 0 ∧ 0 <= 0 < SIZE_MAX ∧ strlen "hello world" < SIZE_MAX) ∧
  (slog_enabled s0 WEBDIS_TRACE = 0 ∧
   slog M0 s0 e0 WEBDIS_TRACE "hello world" 0 = Some []) ∧
  (slog_enabled s0 WEBDIS_INFO = 1 ∧
   ∃ line rest,
     slog M0 s0 e0 WEBDIS_INFO "hello world" 0
       = Some (Write (log_fd s0) line :: rest) ∧
     0 < strlen line ∧ lines rest = 0%nat).
Proof.
  assert (64 <= M0) as HM by (unfold M0; lia).
  assert (log_fd s0 ≠ 0) as Hfd by (simpl; lia).
  assert (0 <= 0 < SIZE_MAX) as Hsz by (unfold SIZE_MAX; lia).
  assert (strlen "hello world" < SIZE_MAX) as Hbody by (vm_compute; reflexivity).
  split; [done|]. split.
  - destruct (slog_level_gate M0 s0 e0 WEBDIS_TRACE "hello world" 0) as [Hoff _].
    apply Hoff. simpl. lia.
  - destruct (slog_level_gate M0 s0 e0 WEBDIS_INFO "hello world" 0) as [_ Hon].
    destruct Hon as [Hyes Hline]; [simpl; lia|].
    split; [exact Hyes|]. exact (Hline HM Hfd Hsz Hbody).
Defined.

(** A message of 300 characters with SLOG_MSG_MAX_LEN 124: 124
    characters of it reach the line. *)
Lemma slog_internal_bounded_witness :
  (64 <= M0 ∧ 0 <= 0 < SIZE_MAX ∧ strlen long_body < SIZE_MAX) ∧
  ∃ msg line,
    slog_msg M0 long_body 0 = Some (Some msg, 300) ∧
    strlen msg = M0 ∧ strlen line + 1 <= sizeof_line M0 ∧
    slog_internal M0 s0 e0 WEBDIS_ERROR long_body 0
      = Some [Write 2 line; Fsync 2].
Proof.
  assert (64 <= M0) as HM by (unfold M0; lia).
  assert (0 <= 0 < SIZE_MAX) as Hsz by (unfold SIZE_MAX; lia).
  assert (strlen long_body < SIZE_MAX) as Hbody by (vm_compute; reflexivity).
  split; [done|].
  destruct (slog_internal_bounded M0 s0 e0 WEBDIS_ERROR long_body 0 HM Hsz Hbody)
    as (msg & line & Hmsg & Hcut & _ & _ & _ & _ & Hline & Hrun).
  exists msg, line. split; [exact Hmsg|]. split; [|split; [exact Hline|exact Hrun]].
  rewrite Hcut. vm_compute. reflexivity.
Defined.

(** The three fsync policies on one message, the timer for a period
    of 250 milliseconds, and the timer for a period of one hour, which
    is armed with -694 seconds and -967296 microseconds. *)
Lemma fsync_fidelity_witness :
  (64 <= M0 ∧ 0 <= 0 < SIZE_MAX ∧ strlen "hello world" < SIZE_MAX) ∧
  (∃ w',
     slog_fsync_init M0 e0 w_hour = Some w' ∧
     out w' = [Event_new 1%N (-1) EV_PERSIST Slog_fsync_tick;
               Event_add 200%N (Timeval (-694) (-967296))] ∧
     log_fsync_tv (srv w') = Timeval (-694) (-967296) ∧
     timeval_usec (log_fsync_tv (srv w')) ≠ 3600000 * 1000) ∧
  (∃ line,
     slog_internal M0 (srv (w_mode LOG_FSYNC_ALL)) e0 WEBDIS_ERROR "hello world" 0
       = Some [Write 2 line; Fsync 2] ∧
     slog_fsync_init M0 e0 (w_mode LOG_FSYNC_ALL) = Some (w_mode LOG_FSYNC_ALL)) ∧
  (∃ line,
     slog_internal M0 (srv (w_mode LOG_FSYNC_AUTO)) e0 WEBDIS_ERROR "hello world" 0
       = Some [Write 2 line] ∧
     slog_fsync_init M0 e0 (w_mode LOG_FSYNC_AUTO) = Some (w_mode LOG_FSYNC_AUTO)) ∧
  (∃ line w' flags tv,
     slog_internal M0 (srv (w_mode LOG_FSYNC_MILLIS)) e0 WEBDIS_ERROR "hello world" 0
       = Some [Write 2 line] ∧
     slog_fsync_init M0 e0 (w_mode LOG_FSYNC_MILLIS) = Some w' ∧
     out w' = [Event_new 1%N (-1) flags Slog_fsync_tick; Event_add 200%N tv] ∧
     persistent flags ∧ timeval_usec tv = 250 * 1000).
Proof.
  assert (64 <= M0) as HM by (unfold M0; lia).
  assert (0 <= 0 < SIZE_MAX) as Hsz by (unfold SIZE_MAX; lia).
  assert (strlen "hello world" < SIZE_MAX) as Hbody by (vm_compute; reflexivity).
  assert (∀ mode, log_fd (srv (w_mode mode)) ≠ 0) as Hfd by (intros mode; simpl; lia).
  split; [done|]. split; [|split; [|split]].
  - destruct (fsync_fidelity M0 e0 WEBDIS_ERROR "hello world" 0 w_hour
                HM ltac:(discriminate) Hsz Hbody) as (line & _ & _ & Htimer).
    destruct (Htimer 200%N eq_refl eq_refl)
      as (w' & flags & tv & Hinit & Hout & _ & Hsec & Husec & _ & _ & _ & _
          & _ & Htv & _).
    destruct tv as [sec usec]. cbn [tv_sec tv_usec] in Hsec, Husec.
    assert (sec = -694) as -> by (rewrite Hsec; reflexivity).
    assert (usec = -967296) as -> by (rewrite Husec; reflexivity).
    exists w'. split; [exact Hinit|]. rewrite Htv. split; [|split; [reflexivity|]].
    + unfold slog_fsync_init in Hinit. vm_compute in Hinit.
      injection Hinit as <-. reflexivity.
    + discriminate.
  - destruct (fsync_fidelity M0 e0 WEBDIS_ERROR "hello world" 0
                (w_mode LOG_FSYNC_ALL) HM (Hfd _) Hsz Hbody) as [line Hline].
    exists line. exact Hline.
  - destruct (fsync_fidelity M0 e0 WEBDIS_ERROR "hello world" 0
                (w_mode LOG_FSYNC_AUTO) HM (Hfd _) Hsz Hbody) as [line Hline].
    exists line. exact Hline.
  - destruct (fsync_fidelity M0 e0 WEBDIS_ERROR "hello world" 0
                (w_mode LOG_FSYNC_MILLIS) HM (Hfd _) Hsz Hbody)
      as (line & Hline & _ & Htimer).
    destruct (Htimer 200%N eq_refl eq_refl)
      as (w' & flags & tv & Hinit & Hout & Hflags & _ & _ & _ & Htv & _).
    exists line, w', flags, tv. split; [exact Hline|]. split; [exact Hinit|].
    split; [exact Hout|]. split; [exact Hflags|].
    apply Htv. simpl. unfold INT_MIN, INT_MAX. lia.
Defined.

(** A failed connect, a connect into an empty pool, after which the
    pool at address 10 holds the handle 500 in its first slot, and a
    connect into a full pool. *)
Lemma pool_on_connect_spec_witness :
  (data c1 = Some 10%N ∧ pools w0 !! 10%N = Some pl0 ∧ pool_wf pl0) ∧
  (∃ w',
     pool_on_connect e0 c1 REDIS_ERR w0 = Some w' ∧
     pools w' !! 10%N = Some pl0 ∧
     tasks w' !! 100%N = Some (Pool_reconnect 10%N (Timeval 0 100000)) ∧
     out w' = reconnect_calls 100%N 77%N) ∧
  (∃ w' pl',
     pool_on_connect e0 c1 REDIS_OK w0 = Some w' ∧
     pools w' !! 10%N = Some pl' ∧
     ac pl' = [Some 500%N; None] ∧
     p_w pl' = Worker 77%N ∧ count pl' = 2 ∧
     tasks w' = ∅ ∧ out w' = []) ∧
  (pools w_full !! 10%N = Some (Pool (Worker 77%N) 2 [Some 7%N; Some 8%N]) ∧
   pool_on_connect e0 c1 REDIS_OK w_full = Some w_full).
Proof.
  assert (data c1 = Some 10%N) as Hdata by reflexivity.
  assert (pools w0 !! 10%N = Some pl0) as Hpl by reflexivity.
  assert (pool_wf pl0) as Hwf by reflexivity.
  split; [done|]. split; [|split].
  - destruct (pool_on_connect_spec e0 c1 REDIS_ERR w0 10%N pl0 Hdata Hpl Hwf)
      as [Hfail _].
    destruct (Hfail (or_introl eq_refl)) as [_ Htask].
    destruct (Htask 100%N eq_refl) as (w' & Hrun & _ & Hpools & Htasks & Hout).
    exists w'. split; [exact Hrun|]. split; [by rewrite Hpools|].
    split; [rewrite Htasks; apply lookup_insert_eq|exact Hout].
  - destruct (pool_on_connect_spec e0 c1 REDIS_OK w0 10%N pl0 Hdata Hpl Hwf)
      as [_ Hok].
    destruct (Hok ltac:(discriminate) eq_refl) as [Hfirst _].
    destruct (Hfirst 0%nat) as (w' & pl' & Hrun & Hpl' & Hac & _ & _ & _ & Hown
                               & Hcount & _ & _ & Htasks & Hout).
    { split; [reflexivity|]. intros j Hj. lia. }
    exists w', pl'. split; [exact Hrun|]. split; [exact Hpl'|].
    split; [exact Hac|]. split; [exact Hown|]. split; [exact Hcount|].
    split; [exact Htasks|exact Hout].
  - split; [reflexivity|].
    destruct (pool_on_connect_spec e0 c1 REDIS_OK w_full 10%N
                (Pool (Worker 77%N) 2 [Some 7%N; Some 8%N]) Hdata eq_refl eq_refl)
      as [_ Hok].
    destruct (Hok ltac:(discriminate) eq_refl) as [_ Hfull].
    apply Hfull. simpl.
    by intros [?|[?|?%elem_of_nil]%elem_of_cons]%elem_of_cons.
Defined.

(** A handle with no pool: a connect and an unclean disconnect. *)
Lemma callbacks_without_pool_witness :
  data c_nopool = None ∧
  pool_on_connect e0 c_nopool REDIS_OK w_conn = Some w_conn ∧
  pool_on_disconnect M0 e0 c_nopool REDIS_ERR w_conn = Some w_conn.
Proof.
  assert (data c_nopool = None) as Hdata by reflexivity.
  split; [done|]. split.
  - destruct (callbacks_without_pool M0 e0 c_nopool REDIS_OK w_conn Hdata) as [Hc _].
    exact Hc.
  - destruct (callbacks_without_pool M0 e0 c_nopool REDIS_ERR w_conn Hdata) as [_ Hd].
    exact Hd.
Defined.

(** A reconnect scheduled for the pool at 10 and its timer firing. *)
Lemma reconnect_task_witness :
  (pools w0 !! 10%N = Some pl0 ∧ heap e0 = Some 100%N) ∧
  ∃ w',
    pool_schedule_reconnect e0 10%N w0 = Some w' ∧
    out w' = [Event_set 100%N (-1) 0 (Pool_can_connect 100%N);
              Event_base_set 77%N 100%N;
              Event_add 100%N (Timeval 0 100000)] ∧
    run_callback (Pool_can_connect 100%N) w'
      = Some (emit [Connect_request 10%N 0 1] (free_task 100%N w')).
Proof.
  assert (pools w0 !! 10%N = Some pl0) as Hpl by reflexivity.
  assert (heap e0 = Some 100%N) as Hheap by reflexivity.
  split; [done|].
  destruct (reconnect_task e0 10%N 100%N pl0 w0 Hpl Hheap)
    as (w' & flags & tv & Hrun & Hsrv & Hpools & Htasks & Hout & _ & _ & Hfire).
  exists w'. split; [exact Hrun|].
  assert (Some w' = Some (emit (reconnect_calls 100%N 77%N)
                            (set_task 100%N (Pool_reconnect 10%N (Timeval 0 100000)) w0)))
    as [= ->] by (rewrite <-Hrun; reflexivity).
  split; [reflexivity|].
  destruct (Hfire (emit (reconnect_calls 100%N 77%N)
                     (set_task 100%N (Pool_reconnect 10%N (Timeval 0 100000)) w0)))
    as (_ & _ & Hcall).
  - rewrite Htasks. apply lookup_insert_eq.
  - by exists pl0.
  - exact Hcall.
Defined.


(** An error reply, a status reply and an integer reply as the first
    completion, and an error reply after [auth_logged] is set. *)
Lemma pool_on_auth_complete_spec_witness :
  (64 <= M0 ∧ pools w0 !! 10%N = Some pl0) ∧
  pool_on_auth_complete M0 e0 (Some r_wrongpass) 10%N w0
    = Some (emit (log_events M0 s0 e0 WEBDIS_ERROR "Authentication failed: WRONGPASS")
              (set_srv (set_auth_logged 1 s0) w0)) ∧
  pool_on_auth_complete M0 e0 (Some r_ok) 10%N w0
    = Some (emit (log_events M0 s0 e0 WEBDIS_INFO "Authentication succeeded: OK")
              (set_srv (set_auth_logged 1 s0) w0)) ∧
  pool_on_auth_complete M0 e0 (Some r_integer) 10%N w0
    = Some (set_srv (set_auth_logged 1 s0) w0) ∧
  pool_on_auth_complete M0 e0 (Some r_wrongpass) 10%N
      (set_srv (set_auth_logged 1 s0) w0)
    = Some (set_srv (set_auth_logged 1 s0) w0).
Proof.
  assert (64 <= M0) as HM by (unfold M0; lia).
  assert (pools w0 !! 10%N = Some pl0) as Hpl by reflexivity.
  assert (∀ _ : unit, heap e0 ≠ None) as Hheap by (intros _; discriminate).
  split; [done|]. split; [|split; [|split]].
  - destruct (pool_on_auth_complete_spec M0 e0 r_wrongpass 10%N w0 pl0)
      as [Hstep _].
    destruct (Hstep HM Hpl) as [_ Hfirst].
    destruct (Hfirst eq_refl (Hheap tt)) as (Herr & _).
    { unfold fits. vm_compute. discriminate. }
    apply Herr. reflexivity.
  - destruct (pool_on_auth_complete_spec M0 e0 r_ok 10%N w0 pl0)
      as [Hstep _].
    destruct (Hstep HM Hpl) as [_ Hfirst].
    destruct (Hfirst eq_refl (Hheap tt)) as (_ & Hstatus & _).
    { unfold fits. vm_compute. discriminate. }
    apply Hstatus. reflexivity.
  - destruct (pool_on_auth_complete_spec M0 e0 r_integer 10%N w0 pl0)
      as [Hstep _].
    destruct (Hstep HM Hpl) as [_ Hfirst].
    destruct (Hfirst eq_refl (Hheap tt)) as (_ & _ & Hother & _).
    { unfold fits. vm_compute. discriminate. }
    apply Hother; discriminate.
  - destruct (pool_on_auth_complete_spec M0 e0 r_wrongpass 10%N
                (set_srv (set_auth_logged 1 s0) w0) pl0)
      as [Hstep _].
    destruct (Hstep HM Hpl) as [Hlogged _].
    apply Hlogged. discriminate.
Defined.

(** A missing reply, then an error reply, then a status reply: one
    line, the one of the error reply. *)
Lemma auth_logged_once_witness :
  (64 <= M0 ∧ pools w0 !! 10%N = Some pl0 ∧ auth_logged (srv w0) = 0 ∧
   Forall granted [(e0, None); (e0, Some r_wrongpass); (e0, Some r_ok)]) ∧
  ∃ w',
    complete_all M0 [(e0, None); (e0, Some r_wrongpass); (e0, Some r_ok)] 10%N w0
      = Some w' ∧
    out w' = log_events M0 s0 e0 WEBDIS_ERROR "Authentication failed: WRONGPASS" ∧
    new_lines w0 w' = 1%nat.
Proof.
  assert (64 <= M0) as HM by (unfold M0; lia).
  assert (pools w0 !! 10%N = Some pl0) as Hpl by reflexivity.
  assert (auth_logged (srv w0) = 0) as Hflag by reflexivity.
  assert (Forall granted [(e0, None); (e0, Some r_wrongpass); (e0, Some r_ok)])
    as Hrs.
  { repeat apply Forall_cons_2; [..|apply Forall_nil_2];
      (split; [discriminate|]); intros reply [= <-];
      unfold fits; vm_compute; discriminate. }
  split; [done|].
  destruct (auth_logged_once M0 _ 10%N w0 pl0 HM Hpl Hflag Hrs)
    as (w' & Hrun & Hout & Hlines).
  exists w'. split; [exact Hrun|]. split; [exact Hout|].
  apply Hlines; simpl; lia.
Defined.


(** ** Further properties of slog.c *)

Lemma take_s_same n m s :
  Nat.min n (String.length s) = Nat.min m (String.length s) →
  take_s n s = take_s m s.
Proof. intros H. by rewrite <-(take_s_min n), <-(take_s_min m), H. Qed.

Lemma slog_internal_unset M s e level body sz :
  log_fd s = 0 → slog_internal M s e level body sz = Some [].
Proof. intros Hfd. unfold slog_internal. by rewrite Hfd. Qed.

(** X1 (what silences the logger).  A server whose sink descriptor is
    0 logs nothing at any level, errors included, whatever the length
    passed; and for lengths below SIZE_MAX a call of [slog] makes no
    call exactly when the level is above the verbosity or the sink
    descriptor is 0. *)
Theorem slog_silent (M : Z) (s : server) (e : env) (level : log_level)
    (body : string) (sz : Z) :
  (log_fd s = 0 → slog M s e level body sz = Some []) ∧
  (64 <= M → 0 <= sz < SIZE_MAX → strlen body < SIZE_MAX →
   (slog M s e level body sz = Some [] ↔
    verbosity (cfg s) < level_num level ∨ log_fd s = 0)).
Proof.
  split.
  - intros Hfd. unfold slog. rewrite slog_internal_unset by done.
    by destruct (_ <=? _).
  - intros HM Hsz Hbody. unfold slog.
    destruct (Z.leb_spec (level_num level) (verbosity (cfg s))) as [Hon|Hoff].
    + destruct (decide (log_fd s = 0)) as [Hfd|Hfd].
      * rewrite slog_internal_unset by done. split; [by right|done].
      * rewrite slog_internal_spec by done. split; [done|]. intros [?|?]; [lia|done].
    + split; [by left|done].
Qed.

(** X2 (the length argument of [slog]).  Passing 0, the length of the
    message, or any larger length below SIZE_MAX gives the same calls:
    the message is never read past its end.  A message no longer than
    SLOG_MSG_MAX_LEN reaches the line whole, and a length shorter than
    the message (and than SLOG_MSG_MAX_LEN) makes the line carry that
    many of its first characters. *)
Theorem slog_length_argument (M : Z) (s : server) (e : env) (level : log_level)
    (body : string) (sz : Z) :
  64 <= M → strlen body < SIZE_MAX → 0 <= sz < SIZE_MAX →
  (sz = 0 ∨ strlen body <= sz →
     slog M s e level body sz = slog M s e level body (strlen body)) ∧
  (log_fd s ≠ 0 → level_num level <= verbosity (cfg s) →
     (strlen body <= M →
        slog M s e level body (strlen body) =
          Some (Write (log_fd s)
                  (fmt_line (sint (log_self s)) (slog_time e)
                     (level_letter level) body)
                :: if decide (fsync_mode (cfg s) = LOG_FSYNC_ALL)
                   then [Fsync (log_fd s)] else [])) ∧
     (0 < sz <= strlen body → sz <= M →
        slog M s e level body sz =
          Some (Write (log_fd s)
                  (fmt_line (sint (log_self s)) (slog_time e)
                     (level_letter level) (take_s (Z.to_nat sz) body))
                :: if decide (fsync_mode (cfg s) = LOG_FSYNC_ALL)
                   then [Fsync (log_fd s)] else []))).
Proof.
  intros HM Hbody Hsz. pose proof (strlen_nonneg body) as Hb. split.
  - intros Hlen. unfold slog. destruct (_ <=? _); [|done].
    destruct (decide (log_fd s = 0)) as [Hfd|Hfd].
    { by rewrite !slog_internal_unset. }
    rewrite !slog_internal_spec by (done || lia). do 4 f_equal.
    apply take_s_same. unfold slog_len, strlen in *.
    destruct (Z.eqb_spec sz 0), (Z.eqb_spec (Z.of_nat (String.length body)) 0); lia.
  - intros Hfd Hon. unfold slog.
    destruct (Z.leb_spec (level_num level) (verbosity (cfg s))); [|lia]. split.
    + intros Hshort. rewrite slog_internal_spec by (done || lia). do 4 f_equal.
      apply take_s_all. unfold slog_len, strlen in *.
      destruct (Z.eqb_spec (Z.of_nat (String.length body)) 0); lia.
    + intros Hcut HszM. rewrite slog_internal_spec by (done || lia). do 5 f_equal.
      unfold slog_len. destruct (Z.eqb_spec sz 0); lia.
Qed.

(** X3 (the length SIZE_MAX).  With the length SIZE_MAX the size
    [sz + 1] given to the first [snprintf] wraps to 0: nothing is stored
    in [msg], and with a sink set the line would be formatted from that
    indeterminate buffer, which is not defined. *)
Theorem slog_length_wraps (M : Z) (s : server) (e : env) (level : log_level)
    (body : string) :
  64 <= M →
  slog_msg M body SIZE_MAX = Some (None, strlen body) ∧
  (log_fd s ≠ 0 → slog_internal M s e level body SIZE_MAX = None).
Proof.
  intros HM.
  assert (slog_msg M body SIZE_MAX = Some (None, strlen body)) as Hmsg.
  { unfold slog_msg, sizeof_msg. change (SIZE_MAX =? 0) with false. cbv iota.
    change (size_t (SIZE_MAX + 1)) with 0.
    destruct (Z.gtb_spec 0 (1 + M)); [lia|]. reflexivity. }
  split; [done|]. intros Hfd. unfold slog_internal.
  destruct (Z.eqb_spec (log_fd s) 0); [done|]. by rewrite Hmsg.
Qed.

Lemma log_events_same M s s' e level body :
  cfg s' = cfg s → log_fd s' = log_fd s → log_self s' = log_self s →
  log_events M s' e level body = log_events M s e level body.
Proof. intros Hcfg Hfd Hself. unfold log_events, log_line. by rewrite Hcfg, Hfd, Hself. Qed.

Lemma slog_whole M s e level body :
  64 <= M → strlen body < SIZE_MAX →
  slog M s e level body 0 = Some (log_events M s e level body).
Proof.
  intros HM Hbody. rewrite <-(slog_spec M s e level body) by done.
  unfold slog. destruct (_ <=? _); [|done].
  destruct (decide (log_fd s = 0)) as [Hfd|Hfd].
  { by rewrite !slog_internal_unset. }
  pose proof (strlen_nonneg body).
  rewrite !slog_internal_spec by (done || unfold SIZE_MAX; lia). do 4 f_equal.
  apply take_s_same. unfold slog_len, strlen in *.
  destruct (Z.eqb_spec 0 0), (Z.eqb_spec (Z.of_nat (String.length body)) 0); lia.
Qed.

(** X4 (opening the sink).  [slog_init] records the pid and leaves the
    configuration and [auth_logged] alone; the sink becomes the
    descriptor [open] returned, or 2 when no log file is configured or
    [open] failed, and is never -1.  With a log file configured it
    closes the descriptor the server held unless that is -1: also
    descriptor 0 of a zeroed server and descriptor 2 of an earlier
    fallback.  A message logged afterwards at a level the verbosity
    admits goes to that sink, if it is not descriptor 0, in a line that
    starts with the pid recorded. *)
Theorem slog_init_sink (pid open_ret : Z) (reason : string) (s : server) :
  let s' := (slog_init pid open_ret reason s).1 in
  let calls := (slog_init pid open_ret reason s).2 in
  log_fd s' = (if bool_decide (logfile (cfg s) = None) || (open_ret =? -1)
               then 2 else open_ret) ∧
  log_fd s' ≠ -1 ∧
  log_self s' = pid ∧ cfg s' = cfg s ∧ auth_logged s' = auth_logged s ∧
  (Close (log_fd s) ∈ calls ↔ logfile (cfg s) ≠ None ∧ log_fd s ≠ -1) ∧
  (∀ M e level body,
     64 <= M → INT_MIN <= pid <= INT_MAX → log_fd s' ≠ 0 →
     level_num level <= verbosity (cfg s) → strlen body < SIZE_MAX →
     slog M s' e level body 0 =
       Some (Write (log_fd s')
               ("[" +:+ fmt_d pid +:+ "] " +:+ slog_time e +:+ " " +:+
                String (level_letter level) " " +:+ take_s (Z.to_nat M) body +:+
                String "010"%char "")
             :: if decide (fsync_mode (cfg s) = LOG_FSYNC_ALL)
                then [Fsync (log_fd s')] else [])).
Proof.
  intros s' calls.
  assert (log_self s' = pid ∧ cfg s' = cfg s ∧ auth_logged s' = auth_logged s)
    as (Hself & Hcfg & Hauth).
  { subst s'. unfold slog_init. simpl. destruct (logfile (cfg s)); simpl; [|done].
    by destruct (open_ret =? -1). }
  assert (log_fd s' = (if bool_decide (logfile (cfg s) = None) || (open_ret =? -1)
                       then 2 else open_ret)) as Hfd.
  { subst s'. unfold slog_init. simpl. destruct (logfile (cfg s)); simpl; [|done].
    by destruct (open_ret =? -1). }
  split; [done|]. split.
  { rewrite Hfd. destruct (bool_decide _); simpl; [lia|].
    destruct (Z.eqb_spec open_ret (-1)); lia. }
  do 3 (split; [done|]). split.
  - subst calls. unfold slog_init. simpl.
    destruct (logfile (cfg s)) as [path|]; simpl.
    + destruct (Z.eqb_spec (log_fd s) (-1)) as [Hold|Hold],
               (Z.eqb_spec open_ret (-1)); simpl;
        rewrite ?elem_of_cons, ?elem_of_nil; intuition congruence.
    + rewrite elem_of_nil. intuition congruence.
  - intros M e level body HM Hpid Hsink Hlevel Hbody.
    rewrite slog_whole by done. unfold log_events, log_line.
    rewrite Hcfg, Hself, sint_small by done.
    destruct (Z.leb_spec (level_num level) (verbosity (cfg s))); [|lia].
    by destruct (Z.eqb_spec (log_fd s') 0).
Qed.

Lemma fmt1_evadd_reason arg :
  fmt1 evadd_reason arg = "fsync timer could not be added: " +:+ arg.
Proof. unfold evadd_reason. simpl. by rewrite app_nil_r_s. Qed.

(** X5 (the fsync timer that cannot be installed).  Under
    LOG_FSYNC_MILLIS, when [event_new] returns no event,
    [slog_fsync_init] reports "fsync timer could not be created" through
    the logger at error level and arms nothing; when [event_add]
    returns a number other than 0, it reports "fsync timer could not be
    added: " followed by that number, the message fitting the buffer
    made for it. *)
Theorem slog_fsync_init_failures (M : Z) (e : env) (w : world) :
  64 <= M → fsync_mode (cfg (srv w)) = LOG_FSYNC_MILLIS →
  (event_new_ret e = None →
     ∃ w', slog_fsync_init M e w = Some w' ∧
           out w' = out w
                    ++ Event_new (base (srv w)) (-1) EV_PERSIST Slog_fsync_tick
                    :: log_events M (srv w) e WEBDIS_ERROR
                         "fsync timer could not be created" ∧
           log_fsync_ev (srv w') = None ∧
           log_fsync_tv (srv w') = log_fsync_tv (srv w)) ∧
  (∀ ev, event_new_ret e = Some ev → event_add_ret e ≠ 0 →
     ∃ w' tv, slog_fsync_init M e w = Some w' ∧
              out w' = out w
                       ++ [Event_new (base (srv w)) (-1) EV_PERSIST Slog_fsync_tick;
                           Event_add ev tv]
                       ++ log_events M (srv w) e WEBDIS_ERROR
                            ("fsync timer could not be added: "
                             +:+ fmt_d (event_add_ret e)) ∧
              log_fsync_ev (srv w') = Some ev).
Proof.
  intros HM Hmode. split.
  - intros Hnew. unfold slog_fsync_init.
    rewrite Hmode, bool_decide_true by done.
    cbn [negb log_fsync_ev set_log_fsync_ev]. rewrite Hnew.
    change (sizeof_str evnew_error - 1) with (strlen evnew_error).
    rewrite slog_spec by (done || vm_compute; reflexivity).
    eexists. split; [reflexivity|].
    cbn [out srv emit set_srv log_fsync_ev log_fsync_tv base].
    split; [|done]. rewrite <-app_assoc. do 2 f_equal; by apply log_events_same.
  - intros ev Hnew Hadd. unfold slog_fsync_init.
    rewrite Hmode, bool_decide_true by done.
    cbn [negb log_fsync_ev set_log_fsync_ev]. rewrite Hnew.
    destruct (Z.eqb_spec (event_add_ret e) 0) as [?|_]; [done|].
    cbn [negb]. cbv zeta. rewrite fmt1_evadd_reason.
    set (text := "fsync timer could not be added: " +:+ fmt_d (event_add_ret e)).
    assert (strlen text <= 43) as Htext.
    { subst text. rewrite strlen_app.
      pose proof (fmt_d_length (event_add_ret e)).
      change (strlen "fsync timer could not be added: ") with 32. lia. }
    pose proof (strlen_nonneg text).
    change (sizeof_str evadd_reason + 16) with 51. unfold snprintf.
    change (51 =? 0) with false. cbv iota.
    rewrite take_s_all by (unfold strlen in *; lia).
    destruct (Z.leb_spec (strlen text + 1) 51); [|lia].
    cbn [mbind option_bind]. rewrite size_t_small by (unfold SIZE_MAX; lia).
    rewrite slog_spec by (done || unfold SIZE_MAX; lia).
    eexists _, _. split; [reflexivity|].
    cbn [out srv emit set_srv log_fsync_ev set_log_fsync_tv].
    split; [|done]. rewrite <-!app_assoc. do 3 f_equal; by apply log_events_same.
Qed.

(** ** Further properties of pool.c *)

Lemma log_disconnect_spec M s e c status :
  64 <= M → heap e ≠ None → fits (default "(null)" (errstr c)) →
  log_disconnect M s e c status =
    Some (if status =? REDIS_OK then []
          else log_events M s e WEBDIS_ERROR
                 ("Error disconnecting: " +:+ default "(null)" (errstr c))).
Proof.
  intros HM Hheap Hfits. unfold log_disconnect.
  destruct (status =? REDIS_OK); [done|]. cbn [negb]. cbv zeta.
  set (m := default "(null)" (errstr c)) in *.
  set (text := "Error disconnecting: " +:+ m).
  assert (strlen text = 21 + strlen m) as Htext by apply strlen_app.
  assert (strlen m = match errstr c with Some x => strlen x | None => 6 end) as Hm
    by (subst m; by destruct (errstr c)).
  pose proof (strlen_nonneg m). unfold fits in Hfits.
  destruct (heap e); [|done]. rewrite fmt1_disconnect, <-Hm. fold text.
  change (sizeof_str "Error disconnecting: %s") with 24.
  unfold SIZE_MAX in *.
  rewrite !size_t_small by (unfold SIZE_MAX; rewrite ?size_t_small;
                            unfold SIZE_MAX; lia).
  apply message_spec; unfold SIZE_MAX; lia.
Qed.

Lemma pool_on_disconnect_run M e c status w pp pl pr evs slots :
  data c = Some pp → pools w !! pp = Some pl → heap e = Some pr →
  log_disconnect M (srv w) e c status = Some evs →
  pool_remove (Z.to_nat (count pl)) 0 (ac pl) (ac_addr c) = Some slots →
  pool_on_disconnect M e c status w =
    Some (emit (reconnect_calls pr (w_base (p_w pl)))
            (set_task pr (Pool_reconnect pp (Timeval 0 100000))
               (set_pool pp (set_ac slots pl) (emit evs w)))).
Proof.
  intros Hdata Hpl Hheap Hlog Hrem. unfold pool_on_disconnect.
  rewrite Hdata, Hpl. simpl. rewrite Hlog. simpl. rewrite Hrem. simpl.
  by rewrite (pool_schedule_reconnect_spec e pp _ (set_ac slots pl) pr)
    by (done || apply lookup_insert_eq).
Qed.

Lemma pool_on_connect_ok e c status w pp pl slots :
  data c = Some pp → status ≠ REDIS_ERR → err c = 0 → pools w !! pp = Some pl →
  pool_add (Z.to_nat (count pl)) 0 (ac pl) (ac_addr c) = Some slots →
  pool_on_connect e c status w = Some (set_pool pp (set_ac slots pl) w).
Proof.
  intros Hdata Hstatus Herr Hpl Hadd. unfold pool_on_connect.
  rewrite Hdata, bool_decide_false by done. cbn [orb].
  destruct (Z.eqb_spec status REDIS_ERR); [done|]. rewrite Herr. simpl.
  rewrite Hpl. simpl. by rewrite Hadd.
Qed.

Lemma pool_add_total (pl : pool) (a : ptr) :
  pool_wf pl →
  ∃ slots,
    pool_add (Z.to_nat (count pl)) 0 (ac pl) a = Some slots ∧
    (∀ i, first_at None (ac pl) i → slots = <[i := Some a]> (ac pl)) ∧
    (None ∉ ac pl → slots = ac pl).
Proof.
  intros Hwf. unfold pool_wf in Hwf. rewrite Hwf, Nat2Z.id.
  destruct (decide (None ∈ ac pl)) as [Hin|Hnot].
  - destruct (first_at_exists _ _ Hin) as [k Hk].
    pose proof (first_at_bound _ _ _ Hk).
    exists (<[k := Some a]> (ac pl)). split; [apply pool_add_hit; [lia|done]|].
    split; [|done]. intros i Hi. by rewrite (first_at_unique _ _ _ _ Hi Hk).
  - exists (ac pl). split; [by apply pool_add_miss|]. split; [|done].
    intros i [Hi _]. destruct Hnot. by eapply list_elem_of_lookup_2.
Qed.

(** X6 (a new pool).  [pool_new] with a count that is not negative
    stores, at the address it returns, a pool of that many slots, all
    empty, owned by the worker given; it touches no other pool, neither
    the server nor the tasks, and makes no call.  When the count is at
    least 1, the first handle that connects to it is put in slot 0: the
    pool found at that address afterwards holds it there, the other
    slots being empty, with the same owner and count. *)
Theorem pool_new_first_connect (e : env) (wk : worker) (n : Z) (w : world)
    (pp : ptr) :
  heap e = Some pp → 0 <= n →
  ∃ w' pl,
    pool_new e wk n w = Some (pp, w') ∧
    pools w' !! pp = Some pl ∧ p_w pl = wk ∧ count pl = n ∧ pool_wf pl ∧
    ac pl = replicate (Z.to_nat n) None ∧
    (∀ pp', pp' ≠ pp → pools w' !! pp' = pools w !! pp') ∧
    srv w' = srv w ∧ tasks w' = tasks w ∧ out w' = out w ∧
    (∀ e' c, 1 <= n → data c = Some pp → err c = 0 →
       pool_on_connect e' c REDIS_OK w' =
         Some (set_pool pp
                 (set_ac (Some (ac_addr c) :: replicate (Z.to_nat n - 1) None) pl)
                 w')) ∧
    (∀ e' c, 1 <= n → data c = Some pp → err c = 0 →
       ∃ w'' pl'',
         pool_on_connect e' c REDIS_OK w' = Some w'' ∧
         pools w'' !! pp = Some pl'' ∧
         ac pl'' = Some (ac_addr c) :: replicate (Z.to_nat n - 1) None ∧
         p_w pl'' = wk ∧ count pl'' = n).
Proof.
  intros Hheap Hn. unfold pool_new. rewrite Hheap. simpl.
  eexists _, _. split; [reflexivity|]. simpl.
  split; [apply lookup_insert_eq|]. do 2 (split; [done|]).
  split; [unfold pool_wf; simpl; rewrite length_replicate; lia|].
  split; [done|].
  split; [intros pp' Hne; by apply lookup_insert_ne|].
  do 3 (split; [done|]).
  assert (∀ e' c, 1 <= n → data c = Some pp → err c = 0 →
            pool_on_connect e' c REDIS_OK
              (set_pool pp (Pool wk n (replicate (Z.to_nat n) None)) w) =
            Some (set_pool pp
                    (set_ac (Some (ac_addr c) :: replicate (Z.to_nat n - 1) None)
                       (Pool wk n (replicate (Z.to_nat n) None)))
                    (set_pool pp (Pool wk n (replicate (Z.to_nat n) None)) w)))
    as Hfirst.
  { intros e' c Hn1 Hdata Herr.
    apply pool_on_connect_ok; [done|done|done|apply lookup_insert_eq|]. simpl.
    destruct (Z.to_nat n) as [|k] eqn:Hk; [lia|]. simpl.
    by rewrite Nat.sub_0_r. }
  split; [exact Hfirst|]. intros e' c Hn1 Hdata Herr.
  eexists _, _. split; [by apply Hfirst|]. simpl.
  split; [apply lookup_insert_eq|done].
Qed.

(** X7 (what a successful connect does and does not do).  With a pool
    attached and no error, the connect callback changes nothing but the
    slots of that pool: it makes no call, stores no task and leaves the
    server alone, also when the pool is full and the handle is dropped.
    It never overwrites an occupied slot, and afterwards the handle is
    in a slot exactly if a slot was empty or held it already.  The
    slots spoken of are those of the pool found at the same address
    afterwards, whose owner and count are as before, and the slot that
    was the first empty one holds the handle. *)
Theorem pool_on_connect_tracks (e : env) (c : redisAsyncContext) (status : Z)
    (w : world) (pp : ptr) (pl : pool) :
  data c = Some pp → pools w !! pp = Some pl → pool_wf pl →
  status ≠ REDIS_ERR → err c = 0 →
  ∃ w' slots,
    pool_on_connect e c status w = Some w' ∧
    pools w' = <[pp := set_ac slots pl]> (pools w) ∧
    srv w' = srv w ∧ tasks w' = tasks w ∧ out w' = out w ∧
    length slots = length (ac pl) ∧
    (∀ j h, ac pl !! j = Some (Some h) → slots !! j = Some (Some h)) ∧
    (Some (ac_addr c) ∈ slots ↔ None ∈ ac pl ∨ Some (ac_addr c) ∈ ac pl) ∧
    (None ∉ ac pl → slots = ac pl) ∧
    (∃ pl', pools w' !! pp = Some pl' ∧ ac pl' = slots ∧
            p_w pl' = p_w pl ∧ count pl' = count pl) ∧
    (∀ i, first_at None (ac pl) i → slots !! i = Some (Some (ac_addr c))).
Proof.
  intros Hdata Hpl Hwf Hstatus Herr.
  destruct (pool_add_total pl (ac_addr c) Hwf) as (slots & Hadd & Hhit & Hmiss).
  exists (set_pool pp (set_ac slots pl) w), slots.
  split; [by apply pool_on_connect_ok|]. do 4 (split; [done|]).
  assert (∃ pl', pools (set_pool pp (set_ac slots pl) w) !! pp = Some pl' ∧
                 ac pl' = slots ∧ p_w pl' = p_w pl ∧ count pl' = count pl)
    as Hstored.
  { eexists. split; [apply lookup_insert_eq|done]. }
  assert (∀ i, first_at None (ac pl) i → slots !! i = Some (Some (ac_addr c)))
    as Hplaced.
  { intros i Hi. rewrite (Hhit i Hi). apply list_lookup_insert_eq.
    by eapply first_at_bound. }
  cut (length slots = length (ac pl) ∧
       (∀ j h, ac pl !! j = Some (Some h) → slots !! j = Some (Some h)) ∧
       (Some (ac_addr c) ∈ slots ↔ None ∈ ac pl ∨ Some (ac_addr c) ∈ ac pl) ∧
       (None ∉ ac pl → slots = ac pl)).
  { intros (? & ? & ? & ?). by repeat (split; [done|]). }
  clear Hstored Hplaced.
  destruct (decide (None ∈ ac pl)) as [Hin|Hfull].
  - destruct (first_at_exists _ _ Hin) as [k Hk].
    rewrite (Hhit k Hk). destruct Hk as [Hk _].
    split; [apply length_insert|]. split; [|split; [|done]].
    + intros j h Hj. destruct (decide (k = j)) as [->|Hne]; [congruence|].
      by rewrite list_lookup_insert_ne.
    + split; [by left|]. intros _.
      apply list_elem_of_lookup. exists k.
      apply list_lookup_insert_eq. by eapply lookup_lt_Some.
  - rewrite (Hmiss Hfull). split; [done|]. split; [done|].
    split; [|done]. split; [by right|]. by intros [?|?].
Qed.

(** X8 (what a disconnect removes).  With a pool attached and storage
    for the reconnect task granted, the disconnect callback returns and
    changes the slots of that pool only: every slot holding another
    handle, and every empty slot, is kept; of the slots holding the
    handle only the first is cleared; in a pool where no handle
    occupies two slots the handle is then in no slot; a handle that was
    in no slot leaves the slots as they were.  The slots spoken of are
    those of the pool found at the same address afterwards, whose owner
    and count are as before, and the first slot that held the handle is
    empty. *)
Theorem pool_on_disconnect_removes (M : Z) (e : env) (c : redisAsyncContext)
    (status : Z) (w : world) (pp pr : ptr) (pl : pool) :
  64 <= M → data c = Some pp → pools w !! pp = Some pl → pool_wf pl →
  heap e = Some pr → fits (default "(null)" (errstr c)) →
  ∃ w' slots,
    pool_on_disconnect M e c status w = Some w' ∧
    pools w' = <[pp := set_ac slots pl]> (pools w) ∧
    length slots = length (ac pl) ∧
    (∀ j x, x ≠ Some (ac_addr c) → ac pl !! j = Some x → slots !! j = Some x) ∧
    (∀ i j, first_at (Some (ac_addr c)) (ac pl) i → j ≠ i →
       slots !! j = ac pl !! j) ∧
    (exclusive (ac pl) → Some (ac_addr c) ∉ slots) ∧
    (Some (ac_addr c) ∉ ac pl → slots = ac pl) ∧
    (∃ pl', pools w' !! pp = Some pl' ∧ ac pl' = slots ∧
            p_w pl' = p_w pl ∧ count pl' = count pl) ∧
    (∀ i, first_at (Some (ac_addr c)) (ac pl) i → slots !! i = Some None).
Proof.
  intros HM Hdata Hpl Hwf Hheap Hfits.
  destruct (pool_remove_total pl (ac_addr c) Hwf) as (slots & Hrem & Hhit & Hmiss).
  eexists _, slots. split.
  { eapply pool_on_disconnect_run; [done..| |done].
    apply log_disconnect_spec; [done|by rewrite Hheap|done]. }
  split; [done|].
  cut (length slots = length (ac pl) ∧
       (∀ j x, x ≠ Some (ac_addr c) → ac pl !! j = Some x → slots !! j = Some x) ∧
       (∀ i j, first_at (Some (ac_addr c)) (ac pl) i → j ≠ i →
          slots !! j = ac pl !! j) ∧
       (exclusive (ac pl) → Some (ac_addr c) ∉ slots) ∧
       (Some (ac_addr c) ∉ ac pl → slots = ac pl)).
  { intros (? & ? & ? & ? & ?). do 5 (split; [done|]). split.
    - eexists. simpl. split; [apply lookup_insert_eq|done].
    - intros i Hi. rewrite (Hhit i Hi). apply list_lookup_insert_eq.
      by eapply first_at_bound. }
  destruct (decide (Some (ac_addr c) ∈ ac pl)) as [Hin|Hnot].
  - destruct (first_at_exists _ _ Hin) as [k Hk]. rewrite (Hhit k Hk).
    split; [apply length_insert|]. split; [|split; [|split; [|done]]].
    + intros j x Hx Hj. destruct (decide (k = j)) as [->|Hne].
      * destruct Hk as [Hk _]. congruence.
      * by rewrite list_lookup_insert_ne.
    + intros i j Hi Hne. rewrite (first_at_unique _ _ _ _ Hi Hk) in Hne.
      by rewrite list_lookup_insert_ne.
    + intros Hex Hstill. apply list_elem_of_lookup in Hstill as [j Hj].
      apply list_lookup_insert_Some in Hj as [(_ & ? & _)|[Hne Hj]]; [done|].
      destruct Hk as [Hk _]. by destruct Hne, (Hex _ _ _ Hk Hj).
  - rewrite (Hmiss Hnot). split; [done|]. split; [done|]. split; [done|].
    by split.
Qed.

(** X9 (connect, then disconnect).  A handle that is in no slot of its
    pool connects without error and is then disconnected: the pools are
    afterwards what they were before the connect, whether the handle
    found a free slot or was dropped because the pool was full.  What
    the pair leaves behind is the line of an unclean disconnect and one
    reconnect task with its timer. *)
Theorem connect_disconnect_round_trip (M : Z) (e1 e2 : env)
    (c : redisAsyncContext) (status : Z) (w : world) (pp pr : ptr) (pl : pool) :
  64 <= M → data c = Some pp → err c = 0 → pools w !! pp = Some pl →
  pool_wf pl → Some (ac_addr c) ∉ ac pl →
  heap e2 = Some pr → fits (default "(null)" (errstr c)) →
  ∃ w1 w2,
    pool_on_connect e1 c REDIS_OK w = Some w1 ∧
    pool_on_disconnect M e2 c status w1 = Some w2 ∧
    pools w2 = pools w ∧ srv w2 = srv w ∧
    tasks w2 = <[pr := Pool_reconnect pp (Timeval 0 100000)]> (tasks w) ∧
    out w2 =
      out w ++
      (if status =? REDIS_OK then []
       else log_events M (srv w) e2 WEBDIS_ERROR
              ("Error disconnecting: " +:+ default "(null)" (errstr c))) ++
      reconnect_calls pr (w_base (p_w pl)).
Proof.
  intros HM Hdata Herr Hpl Hwf Hnot Hheap Hfits.
  destruct (pool_add_total pl (ac_addr c) Hwf) as (slots & Hadd & Hhit & Hmiss).
  assert (pool_remove (Z.to_nat (count pl)) 0 slots (ac_addr c) = Some (ac pl))
    as Hrem.
  { unfold pool_wf in Hwf. rewrite Hwf, Nat2Z.id.
    destruct (decide (None ∈ ac pl)) as [Hin|Hfull].
    - destruct (first_at_exists _ _ Hin) as [k Hk]. rewrite (Hhit k Hk).
      pose proof (first_at_bound _ _ _ Hk) as Hlt. destruct Hk as [Hk _].
      rewrite (pool_remove_hit _ _ _ _ k).
      + by rewrite list_insert_insert_eq, list_insert_id.
      + lia.
      + split; [by apply list_lookup_insert_eq|].
        intros j Hj Hlook. rewrite list_lookup_insert_ne in Hlook by lia.
        destruct Hnot. by eapply list_elem_of_lookup_2.
    - rewrite (Hmiss Hfull). by apply pool_remove_miss. }
  eexists _, _. split; [by apply pool_on_connect_ok|]. split.
  { eapply (pool_on_disconnect_run M e2 c status _ pp (set_ac slots pl));
      [done|apply lookup_insert_eq|done| |done].
    apply log_disconnect_spec; [done|by rewrite Hheap|done]. }
  split.
  { cbn [pools emit set_task set_pool]. rewrite insert_insert_eq.
    replace (set_ac (ac pl) (set_ac slots pl)) with pl by (by destruct pl).
    by rewrite insert_id. }
  simpl. do 2 (split; [done|]). by rewrite <-app_assoc.
Qed.

(** *** The shape of the pools *)

Lemma same_pool_shape_refl pl : same_pool_shape pl pl.
Proof. done. Qed.

Lemma same_shape_pools w w' : pools w' = pools w → same_shape w w'.
Proof. intros Heq pp. rewrite Heq. by destruct (pools w !! pp). Qed.

Lemma same_shape_trans w1 w2 w3 :
  same_shape w1 w2 → same_shape w2 w3 → same_shape w1 w3.
Proof.
  intros H12 H23 pp. specialize (H12 pp). specialize (H23 pp).
  destruct (pools w1 !! pp), (pools w2 !! pp), (pools w3 !! pp); try done.
  destruct H12 as (? & ? & ?), H23 as (? & ? & ?).
  repeat split; congruence.
Qed.

Lemma same_shape_set_ac w pp pl slots :
  pools w !! pp = Some pl → length slots = length (ac pl) →
  same_shape w (set_pool pp (set_ac slots pl) w).
Proof.
  intros Hpl Hlen pp'. simpl. destruct (decide (pp = pp')) as [<-|Hne].
  - by rewrite Hpl, lookup_insert_eq.
  - rewrite lookup_insert_ne by done. by destruct (pools w !! pp').
Qed.

Lemma same_shape_wf w w' : same_shape w w' → wf_pools w → wf_pools w'.
Proof.
  intros Hsh Hwf pp pl' Hpl'. specialize (Hsh pp). rewrite Hpl' in Hsh.
  destruct (pools w !! pp) as [pl|] eqn:Hpl; [|done].
  destruct Hsh as (_ & Hcount & Hlen). specialize (Hwf pp pl Hpl).
  unfold pool_wf in *. congruence.
Qed.

Lemma same_shape_is_Some w w' pp :
  same_shape w w' → is_Some (pools w !! pp) → is_Some (pools w' !! pp).
Proof.
  intros Hsh [pl Hpl]. specialize (Hsh pp). rewrite Hpl in Hsh.
  by destruct (pools w' !! pp).
Qed.

Lemma pool_schedule_reconnect_frame e pp w w' :
  pool_schedule_reconnect e pp w = Some w' →
  pools w' = pools w ∧ srv w' = srv w.
Proof.
  unfold pool_schedule_reconnect. intros H.
  destruct (heap e) as [pr|]; simpl in H; [|done].
  destruct (pools w !! pp); simpl in H; [|done]. by simplify_eq.
Qed.

Lemma deliver_shape M e ev w w' :
  deliver M e ev w = Some w' → same_shape w w' ∧ srv w' = srv w.
Proof.
  destruct ev as [c|c status]; simpl.
  - unfold pool_on_connect. intros H.
    destruct (data c) as [pp|] eqn:Hdata;
      [|rewrite bool_decide_true in H by done; simplify_eq/=;
        split; [by apply same_shape_pools|done]].
    rewrite bool_decide_false in H by done. cbn [orb] in H.
    destruct (_ || _).
    + apply pool_schedule_reconnect_frame in H as [Hp Hs].
      split; [by apply same_shape_pools|done].
    + simpl in H. destruct (pools w !! pp) as [pl|] eqn:Hpl; simpl in H; [|done].
      destruct (pool_add _ _ _ _) as [slots|] eqn:Hadd; simpl in H; [|done].
      simplify_eq. split; [|done]. apply same_shape_set_ac; [done|].
      destruct (pool_add_shape _ _ _ _ _ Hadd) as [->|(k & _ & ->)];
        [done|apply length_insert].
  - unfold pool_on_disconnect. intros H.
    destruct (data c) as [pp|] eqn:Hdata;
      [|simplify_eq; split; [by apply same_shape_pools|done]].
    destruct (pools w !! pp) as [pl|] eqn:Hpl; simpl in H; [|done].
    destruct (log_disconnect _ _ _ _ _) as [evs|]; simpl in H; [|done].
    destruct (pool_remove _ _ _ _) as [slots|] eqn:Hrem; simpl in H; [|done].
    apply pool_schedule_reconnect_frame in H as [Hp Hs]. split; [|done].
    eapply same_shape_trans; [|by apply same_shape_pools].
    apply (same_shape_set_ac w pp pl slots); [done|].
    destruct (pool_remove_shape _ _ _ _ _ Hrem) as [->|(k & ->)];
      [done|apply length_insert].
Qed.

(** X10 (the pools keep their shape).  Whatever sequence of connect
    and disconnect events is delivered, no pool is created or freed,
    and no pool changes its owner, its count or the length of its
    array; the server is left as it was.  So pools that have as many
    slots as their count says keep having them. *)
Theorem deliver_all_shape (M : Z) (evs : list (env * conn_event)) (w w' : world) :
  deliver_all M evs w = Some w' →
  same_shape w w' ∧ srv w' = srv w ∧ (wf_pools w → wf_pools w').
Proof.
  intros H.
  assert (same_shape w w' ∧ srv w' = srv w) as [Hsh Hs].
  { revert w H. induction evs as [|[e ev] evs IH]; intros w H; simpl in H.
    - simplify_eq. split; [by apply same_shape_pools|done].
    - destruct (deliver M e ev w) as [w1|] eqn:Hstep; simpl in H; [|done].
      destruct (deliver_shape _ _ _ _ _ Hstep) as [Hsh1 Hs1].
      destruct (IH _ H) as [Hsh2 Hs2].
      split; [by eapply same_shape_trans|congruence]. }
  split; [done|]. split; [done|]. by apply same_shape_wf.
Qed.

(** *** Counting what a run does *)

Lemma timers_app evs1 evs2 :
  timers (evs1 ++ evs2) = (timers evs1 + timers evs2)%nat.
Proof.
  induction evs1 as [|ev evs1 IH]; [done|]. destruct ev; simpl; by rewrite ?IH.
Qed.

Lemma timers_log_events M s e level body : timers (log_events M s e level body) = 0%nat.
Proof. unfold log_events. destruct (_ && _); [|done]. simpl. by case_decide. Qed.

Lemma deliver_step M e ev w :
  64 <= M → wf_pools w → deliverable w (e, ev) →
  ∃ w1 new,
    deliver M e ev w = Some w1 ∧ out w1 = out w ++ new ∧
    timers new = (if schedules ev then 1 else 0)%nat ∧
    (lines new ≤ if unclean ev then 1 else 0)%nat ∧
    (log_fd (srv w) ≠ 0 → 0 <= verbosity (cfg (srv w)) →
     lines new = (if unclean ev then 1 else 0)%nat).
Proof.
  intros HM Hwf (Hheap & Hdata & Hfits). simpl in Hheap, Hdata, Hfits.
  destruct (heap e) as [pr|] eqn:Hpr; [|done].
  destruct ev as [c|c status]; simpl in *.
  - destruct (data c) as [pp|] eqn:Hc.
    + destruct (Hdata pp eq_refl) as [pl Hpl].
      rewrite bool_decide_true by done. cbn [andb].
      destruct (Z.eqb_spec (err c) 0) as [Herr|Herr]; cbn [negb].
      * destruct (pool_add_total pl (ac_addr c) (Hwf _ _ Hpl))
          as (slots & Hadd & _).
        eexists _, []. split; [by eapply pool_on_connect_ok|].
        simpl. by rewrite app_nil_r.
      * eexists _, _. split.
        { unfold pool_on_connect. rewrite Hc, bool_decide_false by done.
          destruct (Z.eqb_spec (err c) 0); [done|].
          replace (REDIS_OK =? REDIS_ERR) with false by done. cbn [orb negb].
          by apply pool_schedule_reconnect_spec. }
        simpl. split; [done|]. split; [done|]. split; [simpl; lia|done].
    + exists w, []. unfold pool_on_connect. rewrite Hc.
      rewrite bool_decide_true by done. rewrite bool_decide_false by naive_solver.
      simpl. by rewrite app_nil_r.
  - destruct (data c) as [pp|] eqn:Hc.
    + destruct (Hdata pp eq_refl) as [pl Hpl].
      rewrite bool_decide_true by done. cbn [andb].
      destruct (pool_remove_total pl (ac_addr c) (Hwf _ _ Hpl))
        as (slots & Hrem & _).
      eexists _, _. split.
      { eapply pool_on_disconnect_run; [done..| |done].
        apply log_disconnect_spec; [done|by rewrite Hpr|done]. }
      simpl. split; [by rewrite <-app_assoc|].
      rewrite timers_app, lines_app. simpl. rewrite Nat.add_0_r.
      destruct (Z.eqb_spec status REDIS_OK); cbn [negb]; [done|].
      rewrite timers_log_events. split; [done|].
      split; [apply lines_log_events|].
      intros Hfd Hverb. by apply lines_log_events_on.
    + exists w, []. unfold pool_on_disconnect. rewrite Hc.
      rewrite bool_decide_false by naive_solver.
      simpl. by rewrite app_nil_r.
Qed.

(** X11 (a run that cannot go wrong).  While the allocator grants
    storage, every handle has no pool or one of the pools of the world,
    and the error strings have a representable length, every sequence
    of connect and disconnect events runs to its end, whatever the
    slots hold.  It arms one reconnect timer for each disconnect and
    each failed connect of a handle with a pool, and writes at most one
    line for each unclean disconnect: exactly one where the sink is set
    and the verbosity is not negative. *)
Theorem deliver_all_safe (M : Z) (evs : list (env * conn_event)) (w : world) :
  64 <= M → wf_pools w → Forall (deliverable w) evs →
  ∃ w' new,
    deliver_all M evs w = Some w' ∧ out w' = out w ++ new ∧
    timers new = tally schedules evs ∧
    (lines new ≤ tally unclean evs)%nat ∧
    (log_fd (srv w) ≠ 0 → 0 <= verbosity (cfg (srv w)) →
     lines new = tally unclean evs).
Proof.
  intros HM. revert w. induction evs as [|[e ev] evs IH]; intros w Hwf Hall.
  { exists w, []. simpl. by rewrite app_nil_r. }
  apply Forall_cons in Hall as [Hev Hall].
  destruct (deliver_step M e ev w HM Hwf Hev)
    as (w1 & new1 & Hstep & Hout1 & Htimers1 & Hle1 & Hlines1).
  destruct (deliver_shape _ _ _ _ _ Hstep) as [Hsh Hs].
  destruct (IH w1) as (w' & new2 & Hrun & Hout2 & Htimers2 & Hle2 & Hlines2).
  { by eapply same_shape_wf. }
  { eapply Forall_impl; [done|]. intros [e' ev'] (? & Hd & ?).
    split; [done|]. split; [|done]. intros pp Hpp.
    by eapply same_shape_is_Some, Hd. }
  exists w', (new1 ++ new2). simpl. rewrite Hstep. simpl.
  split; [done|]. split; [by rewrite Hout2, Hout1, <-app_assoc|].
  rewrite timers_app, lines_app, Htimers1, Htimers2.
  split; [done|]. split; [lia|].
  intros Hfd Hverb. rewrite Hlines1 by done.
  rewrite Hlines2 by (by rewrite Hs). done.
Qed.

(** *** Retrying *)

Lemma requests_app evs1 evs2 :
  requests (evs1 ++ evs2) = (requests evs1 + requests evs2)%nat.
Proof.
  induction evs1 as [|ev evs1 IH]; [done|]. destruct ev; simpl; by rewrite ?IH.
Qed.

Lemma fail_and_fire_spec e c w pp pl pr :
  pools w !! pp = Some pl → data c = Some pp → heap e = Some pr →
  fail_and_fire e c w =
    Some (emit [Connect_request pp (database (cfg (srv w))) 1]
            (free_task pr
               (emit (reconnect_calls pr (w_base (p_w pl)))
                  (set_task pr (Pool_reconnect pp (Timeval 0 100000)) w)))).
Proof.
  intros Hpl Hdata Hheap. unfold fail_and_fire, pool_on_connect.
  rewrite Hdata, bool_decide_false by done.
  replace (REDIS_ERR =? REDIS_ERR) with true by done. cbn [orb].
  rewrite (pool_schedule_reconnect_spec e pp w pl pr) by done.
  simpl. rewrite Hheap. simpl. unfold pool_can_connect. simpl.
  rewrite lookup_insert_eq. simpl. by rewrite Hpl.
Qed.

(** X12 (retrying until the backend answers).  Connect attempts for one
    pool that all fail, each followed by the timer of its reconnect
    firing, never give up and never pile up: every attempt arms one
    timer and is answered by one request for a new connection to the
    configured database, with the reconnect flag set; the slots and the
    server stay as they were, and every reconnect task is freed by the
    callback that used it, so that no task stored before is lost and
    none of the new ones is left. *)
Theorem failed_connects_retry (attempts : list (env * redisAsyncContext))
    (w : world) (pp : ptr) (pl : pool) :
  pools w !! pp = Some pl →
  Forall (λ ec, data ec.2 = Some pp ∧ heap ec.1 ≠ None) attempts →
  ∃ w',
    fail_and_fire_all attempts w = Some w' ∧
    pools w' = pools w ∧ srv w' = srv w ∧
    out w' = out w ++ retry_calls pp (w_base (p_w pl)) (database (cfg (srv w)))
                        attempts ∧
    requests (drop (length (out w)) (out w')) = length attempts ∧
    timers (drop (length (out w)) (out w')) = length attempts ∧
    (∀ ec pr, ec ∈ attempts → heap ec.1 = Some pr → tasks w' !! pr = None) ∧
    (∀ pr, (∀ ec, ec ∈ attempts → heap ec.1 ≠ Some pr) →
           tasks w' !! pr = tasks w !! pr).
Proof.
  intros Hpl Hall. revert w Hpl.
  induction Hall as [|[e c] attempts [Hdata Hheap] Hall IH]; intros w Hpl.
  { exists w. simpl. rewrite app_nil_r, drop_all. repeat split; try done.
    intros ec pr Hin. by apply elem_of_nil in Hin. }
  simpl in Hdata, Hheap. destruct (heap e) as [pr|] eqn:Hpr; [|done].
  pose proof (fail_and_fire_spec e c w pp pl pr Hpl Hdata Hpr) as Hstep.
  set (w1 := emit _ _) in Hstep.
  destruct (IH w1 Hpl)
    as (w' & Hrun & Hpools & Hsrv & Hout & Hreq & Htim & Hfreed & Hkept).
  change (srv w1) with (srv w) in *. change (pools w1) with (pools w) in *.
  exists w'. simpl. rewrite Hstep. simpl. split; [done|].
  split; [done|]. split; [done|]. unfold retry_calls in *.
  assert (out w' =
          out w ++ flat_map (λ ec, match heap ec.1 with
                                   | Some pr => reconnect_calls pr (w_base (p_w pl))
                                                ++ [Connect_request pp
                                                      (database (cfg (srv w))) 1]
                                   | None => []
                                   end) ((e, c) :: attempts))
    as Hout'.
  { rewrite Hout. subst w1. simpl. rewrite Hpr. simpl.
    by rewrite <-!app_assoc. }
  split; [done|].
  rewrite Hout, drop_app_length in Hreq, Htim.
  rewrite Hout', drop_app_length. cbn [flat_map]. cbn [fst]. rewrite Hpr.
  rewrite !requests_app, !timers_app, Hreq, Htim.
  split; [done|]. split; [done|]. split.
  - intros ec pr' Hin Hec. apply elem_of_cons in Hin as [->|Hin]; [|by eauto].
    simpl in Hec. rewrite Hpr in Hec. simplify_eq.
    destruct (decide (Some pr' ∈ map (λ ec, heap ec.1) attempts)) as [Hlater|Hnot].
    + apply list_elem_of_fmap in Hlater as (ec & Hec & Hin). by eauto.
    + rewrite Hkept.
      * subst w1. simpl. apply lookup_delete_eq.
      * intros ec Hin Hec. destruct Hnot. apply list_elem_of_fmap. by exists ec.
  - intros pr' Hfresh. rewrite Hkept by (intros ec Hin; apply Hfresh; by right).
    subst w1. simpl.
    assert (pr ≠ pr') as Hne.
    { intros <-. by destruct (Hfresh (e, c)); [left|]. }
    by rewrite lookup_delete_ne, lookup_insert_ne.
Qed.

(** *** Authentication *)

Lemma auth_step_sharp M e r data w w1 :
  pool_on_auth_complete M e r data w = Some w1 →
  is_Some (pools w !! data) ∧
  ((r = None ∨ auth_logged (srv w) ≠ 0) ∧ w1 = w ∨
   r ≠ None ∧ auth_logged (srv w) = 0 ∧
   ∃ evs, w1 = emit evs (set_srv (set_auth_logged 1 (srv w)) w)).
Proof.
  unfold pool_on_auth_complete. intros H.
  destruct (pools w !! data) as [pl|]; simpl in H; [|done].
  split; [done|]. destruct r as [reply|]; [|left; split; [by left|congruence]].
  destruct (Z.eqb_spec (auth_logged (srv w)) 0) as [Hflag|Hflag]; simpl in H;
    [|left; split; [by right|congruence]].
  right. split; [done|]. split; [done|]. rewrite Hflag in H.
  change (sint (0 + 1)) with 1 in H.
  destruct (if type reply =? REDIS_REPLY_ERROR then _ else _) as [evs|];
    simpl in H; [|done].
  exists evs. congruence.
Qed.

(** X13 (the flag that silences the report).  Over any sequence of
    completed authentications the pools, the tasks and every field of
    the server but [auth_logged] are left alone.  The flag only goes
    from 0 to 1: once it is not 0 nothing changes any more, and from 0
    it is 1 afterwards exactly if some completion carried a reply, of
    whatever type. *)
Theorem auth_logged_latch (M : Z) (rs : list (env * option redisReply))
    (data : ptr) (w w' : world) :
  complete_all M rs data w = Some w' →
  pools w' = pools w ∧ tasks w' = tasks w ∧
  srv w' = set_auth_logged (auth_logged (srv w')) (srv w) ∧
  (auth_logged (srv w) ≠ 0 → w' = w) ∧
  (auth_logged (srv w) = 0 →
     first_reply rs = None ∧ w' = w ∨
     first_reply rs ≠ None ∧ auth_logged (srv w') = 1).
Proof.
  revert w. induction rs as [|[e r] rs IH]; intros w H; simpl in H.
  { simplify_eq. repeat split; try done; [by destruct (srv w')|]. by left. }
  destruct (pool_on_auth_complete M e r data w) as [w1|] eqn:Hstep;
    simpl in H; [|done].
  destruct (auth_step_sharp _ _ _ _ _ _ Hstep)
    as [[pl Hpl] [[Hquiet ->]|(Hr & Hflag & evs & ->)]].
  - destruct (IH _ H) as (Hp & Ht & Hs & Hset & Hzero).
    do 3 (split; [done|]). split; [done|]. intros Hflag.
    destruct Hquiet as [->|?]; [|done]. simpl. by apply Hzero.
  - rewrite (complete_all_logged M rs data _ pl) in H by (simpl; done).
    simplify_eq. simpl. do 3 (split; [done|]).
    split; [done|]. intros _. right. split; [|done].
    destruct r; [done|by destruct Hr].
Qed.

(** X14 (a report lost for want of storage).  When [calloc] fails
    while the first reply is being reported, nothing is written, and
    the flag is set all the same: no completion that follows, whatever
    it carries and however much storage there is by then, is reported. *)
Theorem auth_outcome_lost (M : Z) (e : env) (reply : redisReply) (data : ptr)
    (w : world) (pl : pool) :
  pools w !! data = Some pl → auth_logged (srv w) = 0 → heap e = None →
  ∃ w1,
    pool_on_auth_complete M e (Some reply) data w = Some w1 ∧
    out w1 = out w ∧ auth_logged (srv w1) = 1 ∧
    ∀ rs, complete_all M rs data w1 = Some w1.
Proof.
  intros Hpl Hflag Hheap.
  exists (set_srv (set_auth_logged 1 (srv w)) w).
  assert (pool_on_auth_complete M e (Some reply) data w
          = Some (set_srv (set_auth_logged 1 (srv w)) w)) as Hstep.
  { unfold pool_on_auth_complete. rewrite Hpl. simpl. rewrite Hflag.
    change (sint (0 + 1)) with 1. simpl.
    unfold pool_log_auth. rewrite Hheap.
    destruct (type reply =? REDIS_REPLY_ERROR),
             (type reply =? REDIS_REPLY_STATUS); simpl; by rewrite emit_nil. }
  split; [done|]. split; [done|]. split; [done|].
  intros rs. by apply (complete_all_logged M rs data _ pl).
Qed.

(** X15 (the allocation that is not checked).  [pool_schedule_reconnect]
    writes through the address [malloc] returns without looking at it.
    So when the allocator has nothing to give, a connect callback of a
    handle with a pool has a defined result exactly when it reports
    success, which needs no storage, and a disconnect callback has
    none, although the report of the disconnection itself is skipped
    safely. *)
Theorem reconnect_needs_storage (M : Z) (e : env) (c : redisAsyncContext)
    (status : Z) (w : world) (pp : ptr) (pl : pool) :
  data c = Some pp → pools w !! pp = Some pl → pool_wf pl → heap e = None →
  (pool_on_connect e c status w = None ↔ status = REDIS_ERR ∨ err c ≠ 0) ∧
  log_disconnect M (srv w) e c status = Some [] ∧
  pool_on_disconnect M e c status w = None.
Proof.
  intros Hdata Hpl Hwf Hheap. split; [|split].
  - destruct (decide (status = REDIS_ERR ∨ err c ≠ 0)) as [Hfail|Hok].
    + split; [done|]. intros _. unfold pool_on_connect.
      rewrite Hdata, bool_decide_false by done. cbn [orb].
      replace ((status =? REDIS_ERR) || negb (err c =? 0)) with true.
      * unfold pool_schedule_reconnect. by rewrite Hheap.
      * destruct Hfail as [->|Herr]; [done|].
        destruct (Z.eqb_spec (err c) 0); [done|]. by rewrite orb_true_r.
    + destruct (pool_add_total pl (ac_addr c) Hwf) as (slots & Hadd & _).
      rewrite (pool_on_connect_ok e c status w pp pl slots); [done|done| | |done..].
      * intros ->. destruct Hok. by left.
      * destruct (decide (err c = 0)); [done|]. destruct Hok. by right.
  - unfold log_disconnect. rewrite Hheap. by destruct (negb _).
  - unfold pool_on_disconnect. rewrite Hdata, Hpl. simpl.
    unfold log_disconnect. rewrite Hheap.
    destruct (pool_remove_total pl (ac_addr c) Hwf) as (slots & Hrem & _).
    destruct (negb _); simpl; rewrite Hrem; simpl;
      unfold pool_schedule_reconnect; by rewrite Hheap.
Qed.

(** ** Instances of the further properties *)

(** An error logged by a server whose sink is descriptor 0, and a trace
    message under verbosity 4. *)
Lemma slog_silent_witness :
  slog M0 (set_log_fd 0 s0) e0 WEBDIS_ERROR "lost" 4 = Some [] ∧
  (64 <= M0 ∧ 0 <= 6 < SIZE_MAX ∧ strlen "hidden" < SIZE_MAX) ∧
  (slog M0 s0 e0 WEBDIS_TRACE "hidden" 6 = Some [] ↔
   verbosity (cfg s0) < level_num WEBDIS_TRACE ∨ log_fd s0 = 0).
Proof.
  assert (64 <= M0) as HM by (unfold M0; lia).
  assert (0 <= 6 < SIZE_MAX) as Hsz by (split; [lia|reflexivity]).
  assert (strlen "hidden" < SIZE_MAX) as Hbody by reflexivity.
  split; [|split; [done|]].
  - destruct (slog_silent M0 (set_log_fd 0 s0) e0 WEBDIS_ERROR "lost" 4)
      as [Hzero _].
    apply Hzero. reflexivity.
  - destruct (slog_silent M0 s0 e0 WEBDIS_TRACE "hidden" 6) as [_ Hiff].
    exact (Hiff HM Hsz Hbody).
Defined.

(** The first three characters of a message. *)
Lemma slog_length_argument_witness :
  (64 <= M0 ∧ strlen "ready" < SIZE_MAX ∧ 0 <= 3 < SIZE_MAX) ∧
  slog M0 s0 e0 WEBDIS_INFO "ready" 3 =
    Some (Write (log_fd s0)
            (fmt_line (sint (log_self s0)) (slog_time e0)
               (level_letter WEBDIS_INFO) (take_s (Z.to_nat 3) "ready"))
          :: if decide (fsync_mode (cfg s0) = LOG_FSYNC_ALL)
             then [Fsync (log_fd s0)] else []).
Proof.
  assert (64 <= M0) as HM by (unfold M0; lia).
  assert (strlen "ready" < SIZE_MAX) as Hbody by reflexivity.
  assert (0 <= 3 < SIZE_MAX) as Hsz by (split; [lia|reflexivity]).
  split; [done|].
  destruct (slog_length_argument M0 s0 e0 WEBDIS_INFO "ready" 3 HM Hbody Hsz)
    as [_ Hline].
  destruct Hline as [_ Hcut]; [discriminate|simpl; lia|].
  apply Hcut; [split; [lia|discriminate]|unfold M0; lia].
Defined.

(** The length SIZE_MAX with the sink on descriptor 2. *)
Lemma slog_length_wraps_witness :
  64 <= M0 ∧
  slog_msg M0 "boom" SIZE_MAX = Some (None, strlen "boom") ∧
  slog_internal M0 s0 e0 WEBDIS_ERROR "boom" SIZE_MAX = None.
Proof.
  assert (64 <= M0) as HM by (unfold M0; lia).
  split; [done|].
  destruct (slog_length_wraps M0 s0 e0 WEBDIS_ERROR "boom" HM) as [Hmsg Hline].
  split; [exact Hmsg|]. apply Hline. discriminate.
Defined.

(** A zeroed server whose log file cannot be opened: descriptor 0 is
    closed and the sink falls back to descriptor 2. *)
Lemma slog_init_sink_witness :
  log_fd (slog_init 4242 (-1) "Permission denied" s_file).1 = 2 ∧
  Close 0 ∈ (slog_init 4242 (-1) "Permission denied" s_file).2.
Proof.
  destruct (slog_init_sink 4242 (-1) "Permission denied" s_file)
    as (Hfd & _ & _ & _ & _ & Hclose & _).
  split; [exact Hfd|]. apply Hclose. split; discriminate.
Defined.

(** libevent refusing the fsync timer, at creation and at addition. *)
Lemma slog_fsync_init_failures_witness :
  (64 <= M0 ∧ fsync_mode (cfg (srv (w_mode LOG_FSYNC_MILLIS))) = LOG_FSYNC_MILLIS ∧
   event_new_ret e_noevent = None ∧
   event_new_ret e_noadd = Some 200%N ∧ event_add_ret e_noadd ≠ 0) ∧
  (∃ w', slog_fsync_init M0 e_noevent (w_mode LOG_FSYNC_MILLIS) = Some w' ∧
         lines (out w') = 1%nat ∧ log_fsync_ev (srv w') = None) ∧
  (∃ w', slog_fsync_init M0 e_noadd (w_mode LOG_FSYNC_MILLIS) = Some w' ∧
         lines (out w') = 1%nat ∧ log_fsync_ev (srv w') = Some 200%N).
Proof.
  assert (64 <= M0) as HM by (unfold M0; lia).
  assert (fsync_mode (cfg (srv (w_mode LOG_FSYNC_MILLIS))) = LOG_FSYNC_MILLIS)
    as Hmode by reflexivity.
  assert (event_new_ret e_noevent = None) as Hnew by reflexivity.
  assert (event_new_ret e_noadd = Some 200%N) as Hev by reflexivity.
  assert (event_add_ret e_noadd ≠ 0) as Hadd by discriminate.
  split; [done|]. split.
  - destruct (slog_fsync_init_failures M0 e_noevent (w_mode LOG_FSYNC_MILLIS)
                HM Hmode) as [Hcreate _].
    destruct (Hcreate Hnew) as (w' & Hrun & Hout & Hnone & _).
    exists w'. split; [exact Hrun|]. split; [|exact Hnone].
    rewrite Hout. change (out (w_mode LOG_FSYNC_MILLIS)) with (@nil event).
    cbn [app lines]. apply lines_log_events_on; [simpl; lia|discriminate].
  - destruct (slog_fsync_init_failures M0 e_noadd (w_mode LOG_FSYNC_MILLIS)
                HM Hmode) as [_ Hadded].
    destruct (Hadded 200%N Hev Hadd) as (w' & tv & Hrun & Hout & Hsome).
    exists w'. split; [exact Hrun|]. split; [|exact Hsome].
    rewrite Hout. change (out (w_mode LOG_FSYNC_MILLIS)) with (@nil event).
    cbn [app lines]. apply lines_log_events_on; [simpl; lia|discriminate].
Defined.

(** A pool of two slots made at address 100, and the handle 500
    connecting to it: the pool found at address 100 afterwards holds
    the handle in its first slot. *)
Lemma pool_new_first_connect_witness :
  (heap e0 = Some 100%N ∧ 0 <= 2) ∧
  ∃ w' pl,
    pool_new e0 (Worker 77%N) 2 w0 = Some (100%N, w') ∧
    pools w' !! 100%N = Some pl ∧ ac pl = [None; None] ∧
    pools w' !! 10%N = Some pl0 ∧
    ∃ w'' pl'',
      pool_on_connect e0 (RedisAsyncContext 500%N 0 None (Some 100%N)) REDIS_OK w'
        = Some w'' ∧
      pools w'' !! 100%N = Some pl'' ∧ ac pl'' = [Some 500%N; None] ∧
      p_w pl'' = Worker 77%N ∧ count pl'' = 2.
Proof.
  assert (heap e0 = Some 100%N) as Hheap by reflexivity.
  assert (0 <= 2) as Hn by lia.
  split; [done|].
  destruct (pool_new_first_connect e0 (Worker 77%N) 2 w0 100%N Hheap Hn)
    as (w' & pl & Hnew & Hpl & _ & _ & _ & Hac & Hframe & _ & _ & _ & _ & Hfirst).
  exists w', pl. split; [exact Hnew|]. split; [exact Hpl|].
  split; [exact Hac|]. split; [by rewrite Hframe|].
  apply (Hfirst e0 (RedisAsyncContext 500%N 0 None (Some 100%N)));
    [lia|reflexivity|reflexivity].
Defined.

(** The handle 500 connecting to a pool of two empty slots: the pool
    found at address 10 afterwards holds it in slot 0. *)
Lemma pool_on_connect_tracks_witness :
  (data c1 = Some 10%N ∧ pools w0 !! 10%N = Some pl0 ∧ pool_wf pl0 ∧
   REDIS_OK ≠ REDIS_ERR ∧ err c1 = 0) ∧
  ∃ w' pl',
    pool_on_connect e0 c1 REDIS_OK w0 = Some w' ∧
    pools w' !! 10%N = Some pl' ∧
    ac pl' !! 0%nat = Some (Some 500%N) ∧ length (ac pl') = 2%nat ∧
    out w' = out w0 ∧ tasks w' = tasks w0 ∧ Some (ac_addr c1) ∈ ac pl'.
Proof.
  assert (data c1 = Some 10%N) as Hdata by reflexivity.
  assert (pools w0 !! 10%N = Some pl0) as Hpl by reflexivity.
  assert (pool_wf pl0) as Hwf by reflexivity.
  assert (REDIS_OK ≠ REDIS_ERR) as Hstatus by discriminate.
  assert (err c1 = 0) as Herr by reflexivity.
  split; [done|].
  destruct (pool_on_connect_tracks e0 c1 REDIS_OK w0 10%N pl0
              Hdata Hpl Hwf Hstatus Herr)
    as (w' & slots & Hrun & _ & _ & Htasks & Hout & Hlen & _ & Hin & _
        & (pl' & Hpl' & Hac & _) & Hplaced).
  exists w', pl'. split; [exact Hrun|]. split; [exact Hpl'|]. rewrite Hac.
  split.
  { apply Hplaced. split; [reflexivity|]. intros j Hj. lia. }
  split; [exact Hlen|]. split; [exact Hout|]. split; [exact Htasks|].
  apply Hin. left. by left.
Defined.

(** The handle 500 leaving the first slot of its pool: the pool found
    at address 10 afterwards has two empty slots. *)
Lemma pool_on_disconnect_removes_witness :
  (64 <= M0 ∧ data c1 = Some 10%N ∧
   pools w_conn !! 10%N = Some (Pool (Worker 77%N) 2 [Some 500%N; None]) ∧
   pool_wf (Pool (Worker 77%N) 2 [Some 500%N; None]) ∧
   heap e0 = Some 100%N ∧ fits (default "(null)" (errstr c1))) ∧
  ∃ w' pl',
    pool_on_disconnect M0 e0 c1 REDIS_ERR w_conn = Some w' ∧
    pools w' !! 10%N = Some pl' ∧
    length (ac pl') = 2%nat ∧
    ac pl' !! 0%nat = Some None ∧ ac pl' !! 1%nat = Some None.
Proof.
  assert (64 <= M0) as HM by (unfold M0; lia).
  assert (data c1 = Some 10%N) as Hdata by reflexivity.
  assert (pools w_conn !! 10%N = Some (Pool (Worker 77%N) 2 [Some 500%N; None]))
    as Hpl by reflexivity.
  assert (pool_wf (Pool (Worker 77%N) 2 [Some 500%N; None])) as Hwf by reflexivity.
  assert (heap e0 = Some 100%N) as Hheap by reflexivity.
  assert (fits (default "(null)" (errstr c1))) as Hfits
    by (unfold fits; vm_compute; discriminate).
  split; [done|].
  destruct (pool_on_disconnect_removes M0 e0 c1 REDIS_ERR w_conn 10%N 100%N _
              HM Hdata Hpl Hwf Hheap Hfits)
    as (w' & slots & Hrun & _ & Hlen & Hkept & _ & _ & _
        & (pl' & Hpl' & Hac & _) & Hcleared).
  exists w', pl'. split; [exact Hrun|]. split; [exact Hpl'|]. rewrite Hac.
  split; [exact Hlen|]. split.
  - apply Hcleared. split; [reflexivity|]. intros j Hj. lia.
  - apply Hkept; [discriminate|reflexivity].
Defined.

(** The handle 500 connecting to an empty pool and disconnecting
    uncleanly. *)
Lemma connect_disconnect_round_trip_witness :
  (64 <= M0 ∧ data c1 = Some 10%N ∧ err c1 = 0 ∧
   pools w0 !! 10%N = Some pl0 ∧ pool_wf pl0 ∧ (Some (ac_addr c1) ∉ ac pl0) ∧
   heap e0 = Some 100%N ∧ fits (default "(null)" (errstr c1))) ∧
  ∃ w1 w2,
    pool_on_connect e0 c1 REDIS_OK w0 = Some w1 ∧
    pool_on_disconnect M0 e0 c1 REDIS_ERR w1 = Some w2 ∧
    pools w2 = pools w0 ∧ srv w2 = srv w0 ∧
    tasks w2 = <[100%N := Pool_reconnect 10%N (Timeval 0 100000)]> (tasks w0).
Proof.
  assert (64 <= M0) as HM by (unfold M0; lia).
  assert (data c1 = Some 10%N) as Hdata by reflexivity.
  assert (err c1 = 0) as Herr by reflexivity.
  assert (pools w0 !! 10%N = Some pl0) as Hpl by reflexivity.
  assert (pool_wf pl0) as Hwf by reflexivity.
  assert (Some (ac_addr c1) ∉ ac pl0) as Hnot.
  { intros Hin. apply elem_of_cons in Hin as [Hin|Hin]; [discriminate|].
    apply elem_of_cons in Hin as [Hin|Hin]; [discriminate|].
    by apply elem_of_nil in Hin. }
  assert (heap e0 = Some 100%N) as Hheap by reflexivity.
  assert (fits (default "(null)" (errstr c1))) as Hfits
    by (unfold fits; vm_compute; discriminate).
  split; [done|].
  destruct (connect_disconnect_round_trip M0 e0 e0 c1 REDIS_ERR w0 10%N 100%N pl0
              HM Hdata Herr Hpl Hwf Hnot Hheap Hfits)
    as (w1 & w2 & Hconn & Hdis & Hpools & Hsrv & Htasks & _).
  by exists w1, w2.
Defined.

(** A connect and a clean disconnect of the handle 500. *)
Lemma deliver_all_shape_witness :
  ∃ w',
    deliver_all M0 [(e0, Connected c1); (e0, Disconnected c1 REDIS_OK)] w0
      = Some w' ∧
    same_shape w0 w' ∧ srv w' = srv w0.
Proof.
  destruct (deliver_all M0 [(e0, Connected c1); (e0, Disconnected c1 REDIS_OK)] w0)
    as [w'|] eqn:Hrun; [|vm_compute in Hrun; discriminate].
  exists w'. split; [reflexivity|].
  destruct (deliver_all_shape M0 _ w0 w' Hrun) as (Hshape & Hsrv & _).
  by split.
Defined.

(** A connect and an unclean disconnect of the handle 500. *)
Lemma deliver_all_safe_witness :
  (64 <= M0 ∧ wf_pools w0 ∧
   Forall (deliverable w0)
     [(e0, Connected c1); (e0, Disconnected c1 REDIS_ERR)]) ∧
  ∃ w' new,
    deliver_all M0 [(e0, Connected c1); (e0, Disconnected c1 REDIS_ERR)] w0
      = Some w' ∧
    out w' = out w0 ++ new ∧ timers new = 1%nat ∧ lines new = 1%nat.
Proof.
  assert (64 <= M0) as HM by (unfold M0; lia).
  assert (wf_pools w0) as Hwf.
  { intros pp pl Hpl. simpl in Hpl. apply lookup_singleton_Some in Hpl as [_ <-]. reflexivity. }
  assert (deliverable w0 (e0, Connected c1)) as Hfirst.
  { split; [discriminate|]. split; [|unfold fits; vm_compute; discriminate].
    intros pp [= <-]. by exists pl0. }
  assert (deliverable w0 (e0, Disconnected c1 REDIS_ERR)) as Hsecond.
  { split; [discriminate|]. split; [|unfold fits; vm_compute; discriminate].
    intros pp [= <-]. by exists pl0. }
  assert (Forall (deliverable w0)
            [(e0, Connected c1); (e0, Disconnected c1 REDIS_ERR)]) as Hall
    by (constructor; [assumption|]; constructor; [assumption|]; constructor).
  split; [done|].
  destruct (deliver_all_safe M0 _ w0 HM Hwf Hall)
    as (w' & new & Hrun & Hout & Htimers & _ & Hlines).
  exists w', new. split; [exact Hrun|]. split; [exact Hout|].
  split; [exact Htimers|]. apply Hlines; [discriminate|simpl; lia].
Defined.

(** Two failed attempts of the handle 500, each answered by a request
    for a new connection. *)
Lemma failed_connects_retry_witness :
  (pools w0 !! 10%N = Some pl0 ∧
   Forall (λ ec, data ec.2 = Some 10%N ∧ heap ec.1 ≠ None)
     [(e0, c_err); (e_next, c_err)]) ∧
  ∃ w',
    fail_and_fire_all [(e0, c_err); (e_next, c_err)] w0 = Some w' ∧
    pools w' = pools w0 ∧
    requests (drop (length (out w0)) (out w')) = 2%nat ∧
    tasks w' !! 100%N = None ∧ tasks w' !! 101%N = None.
Proof.
  assert (pools w0 !! 10%N = Some pl0) as Hpl by reflexivity.
  assert (Forall (λ ec, data ec.2 = Some 10%N ∧ heap ec.1 ≠ None)
            [(e0, c_err); (e_next, c_err)]) as Hall
    by (repeat constructor; discriminate).
  split; [done|].
  destruct (failed_connects_retry _ w0 10%N pl0 Hpl Hall)
    as (w' & Hrun & Hpools & _ & _ & Hreq & _ & Hfreed & _).
  exists w'. split; [exact Hrun|]. split; [exact Hpools|]. split; [exact Hreq|].
  split.
  - apply (Hfreed (e0, c_err)); [by left|reflexivity].
  - apply (Hfreed (e_next, c_err)); [right; by left|reflexivity].
Defined.

(** A missing reply, an integer reply and an error reply, in this
    order: the integer reply sets the flag. *)
Lemma auth_logged_latch_witness :
  ∃ w',
    complete_all M0
      [(e0, None); (e0, Some r_integer); (e0, Some r_wrongpass)] 10%N w0
      = Some w' ∧
    pools w' = pools w0 ∧ tasks w' = tasks w0 ∧ auth_logged (srv w') = 1.
Proof.
  destruct (complete_all M0
              [(e0, None); (e0, Some r_integer); (e0, Some r_wrongpass)] 10%N w0)
    as [w'|] eqn:Hrun; [|vm_compute in Hrun; discriminate].
  exists w'. split; [reflexivity|].
  destruct (auth_logged_latch M0 _ 10%N w0 w' Hrun)
    as (Hpools & Htasks & _ & _ & Hzero).
  split; [exact Hpools|]. split; [exact Htasks|].
  destruct (Hzero eq_refl) as [[Hnone _]|[_ Hone]]; [discriminate|exact Hone].
Defined.

(** An error reply arriving while the allocator has nothing to give. *)
Lemma auth_outcome_lost_witness :
  (pools w0 !! 10%N = Some pl0 ∧ auth_logged (srv w0) = 0 ∧ heap e_nomem = None) ∧
  ∃ w1,
    pool_on_auth_complete M0 e_nomem (Some r_wrongpass) 10%N w0 = Some w1 ∧
    out w1 = out w0 ∧ auth_logged (srv w1) = 1 ∧
    complete_all M0 [(e0, Some r_wrongpass); (e0, Some r_ok)] 10%N w1 = Some w1.
Proof.
  assert (pools w0 !! 10%N = Some pl0) as Hpl by reflexivity.
  assert (auth_logged (srv w0) = 0) as Hflag by reflexivity.
  assert (heap e_nomem = None) as Hheap by reflexivity.
  split; [done|].
  destruct (auth_outcome_lost M0 e_nomem r_wrongpass 10%N w0 pl0 Hpl Hflag Hheap)
    as (w1 & Hrun & Hout & Hone & Hlater).
  exists w1. split; [exact Hrun|]. split; [exact Hout|]. split; [exact Hone|].
  apply Hlater.
Defined.

(** A failed connect and a disconnect of the handle 500 while the
    allocator has nothing to give. *)
Lemma reconnect_needs_storage_witness :
  (data c1 = Some 10%N ∧
   pools w_conn !! 10%N = Some (Pool (Worker 77%N) 2 [Some 500%N; None]) ∧
   pool_wf (Pool (Worker 77%N) 2 [Some 500%N; None]) ∧ heap e_nomem = None) ∧
  pool_on_connect e_nomem c1 REDIS_ERR w_conn = None ∧
  pool_on_disconnect M0 e_nomem c1 REDIS_ERR w_conn = None.
Proof.
  assert (data c1 = Some 10%N) as Hdata by reflexivity.
  assert (pools w_conn !! 10%N = Some (Pool (Worker 77%N) 2 [Some 500%N; None]))
    as Hpl by reflexivity.
  assert (pool_wf (Pool (Worker 77%N) 2 [Some 500%N; None])) as Hwf by reflexivity.
  assert (heap e_nomem = None) as Hheap by reflexivity.
  split; [done|].
  destruct (reconnect_needs_storage M0 e_nomem c1 REDIS_ERR w_conn 10%N _
              Hdata Hpl Hwf Hheap) as (Hconn & _ & Hdis).
  split; [|exact Hdis]. apply Hconn. by left.
Defined.
